(** * Compliance checker (scripts/check_compliance.py): model and properties

    The script runs a fixed list of compliance checks over a commit range,
    collects one JUnit test case per executed check, writes the report,
    optionally mirrors the outcome to GitHub (one commit status per case and
    one consolidated pull-request comment), and exits with the number of
    cases that carry a non-skipped result.

    Python values are modelled as follows.
    - [str] and [bytes] are both [string] (a [str] is its UTF-8 encoding);
      [bytes.decode('utf8')] validates and otherwise is the identity.
    - [None]-able values are [option].
    - Exceptions are a result constructor: every effectful function lives in
      the monad [M], which threads the mutable outside world ([Sys]),
      collects what is printed on standard output, and stops at the first
      raised exception.
    - What the outside world answers (file system, subprocesses, Kconfiglib)
      is a read-only oracle [World].

    [main] takes the list of check classes as an argument, and every
    statement about the runner holds for any such list.  Five of the six
    classes of the script are given with their bodies: [CheckPatch],
    [KconfigCheck], [Documentation], [GitLint] and [License] (where the
    copying of the new files and the loaded [scancode.json] are answers of
    a [License.oracle]).  Of [Identity] the verdict on one commit and the
    loop over the commits are given, not the reading of [git log], which
    rests on regular expressions and on [email.utils]. *)

From stdpp Require Import base option list strings gmap pretty.

#[local] Open Scope string_scope.
#[local] Open Scope Z_scope.

(** ** Python strings *)

Module Py.

Definition NL : string := String (Ascii.ascii_of_nat 10) "".

(** [needle in hay] on strings: substring test. *)
Fixpoint contains (needle hay : string) : bool :=
  String.prefix needle hay
  || match hay with
     | EmptyString => false
     | String _ rest => contains needle rest
     end.

(** ["{}".format(v)] and ["%s" % v] of a possibly-[None] string. *)
Definition format (v : option string) : string := default "None" v.

(** [sep.join(parts)]. *)
Fixpoint join (sep : string) (parts : list string) : string :=
  match parts with
  | [] => ""
  | [p] => p
  | p :: rest => p +:+ sep +:+ join sep rest
  end.

Definition is_digit (a : Ascii.ascii) : bool :=
  let n := Ascii.nat_of_ascii a in (48 <=? n)%nat && (n <=? 57)%nat.

Definition is_nonzero_digit (a : Ascii.ascii) : bool :=
  let n := Ascii.nat_of_ascii a in (49 <=? n)%nat && (n <=? 57)%nat.

Fixpoint skip_digits (s : string) : string :=
  match s with
  | String a rest => if is_digit a then skip_digits rest else s
  | EmptyString => s
  end.

(** The pattern of [CheckPatch.run] (a digit 1-9, any number of digits
    0-9, then the literal " errors,") anchored at the head of [s].  The
    literal starts with a blank, so the greedy digit run is the only
    candidate for the star. *)
Definition match_errors_at (s : string) : bool :=
  match s with
  | String a rest => is_nonzero_digit a && String.prefix " errors," (skip_digits rest)
  | EmptyString => false
  end.

(** [re.search] of that pattern in [s] finds a match. *)
Fixpoint re_search_errors (s : string) : bool :=
  match_errors_at s
  || match s with
     | String _ rest => re_search_errors rest
     | EmptyString => false
     end.

(** Well-formed UTF-8, by the length of the sequence that the lead byte
    announces (no overlong forms, no surrogates, nothing above U+10FFFF). *)
Definition byte_in (lo hi : nat) (a : Ascii.ascii) : bool :=
  let n := Ascii.nat_of_ascii a in (lo <=? n)%nat && (n <=? hi)%nat.

Definition cont : Ascii.ascii → bool := byte_in 128 191.

Fixpoint valid_utf8 (s : string) : bool :=
  match s with
  | EmptyString => true
  | String a r =>
    if byte_in 0 127 a then valid_utf8 r
    else match r with
    | EmptyString => false
    | String b r2 =>
      if byte_in 194 223 a then cont b && valid_utf8 r2
      else match r2 with
      | EmptyString => false
      | String c r3 =>
        if byte_in 224 239 a then
          (if byte_in 224 224 a then byte_in 160 191 b
           else if byte_in 237 237 a then byte_in 128 159 b
           else cont b)
          && cont c && valid_utf8 r3
        else match r3 with
        | EmptyString => false
        | String d r4 =>
          byte_in 240 244 a
          && (if byte_in 240 240 a then byte_in 144 191 b
              else if byte_in 244 244 a then byte_in 128 143 b
              else cont b)
          && cont c && cont d && valid_utf8 r4
        end
      end
    end
  end.

Definition byte_is (n : nat) (a : Ascii.ascii) : bool :=
  (Ascii.nat_of_ascii a =? n)%nat.

(** The length in bytes of the white-space character at the head of [s], 0
    when [s] does not begin with one: the characters for which
    [str.isspace] holds (U+0009 to U+000D, U+001C to U+0020, U+0085,
    U+00A0, U+1680, U+2000 to U+200A, U+2028, U+2029, U+202F, U+205F and
    U+3000), in UTF-8. *)
Definition space_len (s : string) : nat :=
  match s with
  | String a r =>
    if byte_in 9 13 a || byte_in 28 32 a then 1
    else match r with
    | String b r2 =>
      if byte_is 194 a then (if byte_is 133 b || byte_is 160 b then 2 else 0)
      else match r2 with
      | String c _ =>
        if byte_is 225 a && byte_is 154 b && byte_is 128 c then 3
        else if byte_is 226 a && byte_is 128 b
                && (byte_in 128 138 c || byte_in 168 169 c || byte_is 175 c) then 3
        else if byte_is 226 a && byte_is 129 b && byte_is 159 c then 3
        else if byte_is 227 a && byte_is 128 b && byte_is 128 c then 3
        else 0
      | EmptyString => 0
      end
    | EmptyString => 0
    end
  | EmptyString => 0
  end%nat.

Definition flush (word : string) : list string :=
  if bool_decide (word = "") then [] else [word].

(** The scan of [s.split()]: [skip] bytes of a white-space character are
    still to be passed over, [word] is the word read so far. *)
Fixpoint split_scan (s : string) (skip : nat) (word : string) : list string :=
  match s with
  | EmptyString => flush word
  | String a r =>
    match skip with
    | S k => split_scan r k word
    | O =>
      match space_len s with
      | O => split_scan r 0 (word +:+ String a "")
      | S k => (flush word ++ split_scan r k "")%list
      end
    end
  end.

(** [s.split()]: the words between runs of white space. *)
Definition split (s : string) : list string := split_scan s 0 "".

(** The scan of [s.replace(old, new)] for a non-empty [old]. *)
Fixpoint replace_scan (old new s : string) (skip : nat) : string :=
  match s with
  | EmptyString => ""
  | String a r =>
    match skip with
    | S k => replace_scan old new r k
    | O =>
      if String.prefix old s
      then new +:+ replace_scan old new r (String.length old - 1)
      else String a (replace_scan old new r 0)
    end
  end.

(** [s.replace(old, new)]; an empty [old] matches before every character
    and at the end. *)
Fixpoint replace_empty (new s : string) : string :=
  match s with
  | EmptyString => new
  | String a r => new +:+ String a (replace_empty new r)
  end.

Definition replace (old new s : string) : string :=
  if bool_decide (old = "") then replace_empty new s else replace_scan old new s 0.

(** [len(s.split(sep))] for a separator of one character: one more than
    the occurrences of it. *)
Fixpoint count_pieces (sep : Ascii.ascii) (s : string) : nat :=
  match s with
  | EmptyString => 1
  | String a r => if Ascii.eqb a sep then S (count_pieces sep r) else count_pieces sep r
  end.

End Py.

(** ** Exceptions and outcomes *)

Inductive exception : Type :=
  | SystemExit (code : option nat)
  | CalledProcessError (returncode : Z) (output : string)
  | OSError (what : string)
  | UnicodeDecodeError
  | KeyError (key : string)
  | AssertionError
  | OtherError (class_name : string).

Inductive outcome (A : Type) : Type :=
  | Returned (a : A)
  | Raised (e : exception).
Arguments Returned {A} a.
Arguments Raised {A} e.

(** ** JUnit data (junitparser) *)

Inductive ResultTag := TagSkipped | TagFailure | TagError.

(** A result element: its tag, the [message] and [type] attributes, and the
    element text. *)
Record Result := mkResult {
  tag : ResultTag;
  message : option string;
  type_ : option string;
  text : option string
}.

(** [Result.__init__(message, type_)]: an attribute is set only for a truthy
    argument. *)
Definition new_result (t : ResultTag) (msg ty : string) : Result :=
  {| tag := t;
     message := if bool_decide (msg = "") then None else Some msg;
     type_ := if bool_decide (ty = "") then None else Some ty;
     text := None |}.

Definition Skipped := new_result TagSkipped.
Definition Failure := new_result TagFailure.
Definition Error := new_result TagError.

(** [result._elem.text = t] *)
Definition set_text (r : Result) (t : string) : Result :=
  {| tag := tag r; message := message r; type_ := type_ r; text := Some t |}.

(** [MyCase]: a test case with the attributes the class declares ([name] from
    [TestCase], [classname] and [doc] from [MyCase]); an attribute that was
    never assigned is absent. *)
Record MyCase := mkCase {
  name : string;
  classname : option string;
  doc : option string;
  result : option Result
}.

(** [MyCase(name)] *)
Definition new_case (n : string) : MyCase :=
  {| name := n; classname := None; doc := None; result := None |}.

(** [case.classname = c] *)
Definition set_classname (c : MyCase) (cl : string) : MyCase :=
  {| name := name c; classname := Some cl; doc := doc c; result := result c |}.

(** [case.result = r]: the setter removes any earlier result first. *)
Definition set_result (c : MyCase) (r : Result) : MyCase :=
  {| name := name c; classname := classname c; doc := doc c; result := Some r |}.

(** The four-valued status of the specification, read off the result
    element a case carries. *)
Inductive CheckStatus := Passed | Failed | Errored | SkippedStatus.

Definition status_of (c : MyCase) : CheckStatus :=
  match result c with
  | None => Passed
  | Some r =>
    match tag r with
    | TagSkipped => SkippedStatus
    | TagFailure => Failed
    | TagError => Errored
    end
  end.

(** ** The outside world *)

(** A launched subprocess: its argument vector and whether it went through
    the shell. *)
Record Proc := mkProc { argv : list string; shell : bool }.

(** What a subprocess did once it ran to completion. *)
Record Completed := mkCompleted { returncode : Z; output : string }.

(** A commit status on GitHub, as [commit.create_status] receives it, with
    the repository and commit it was attached to. *)
Record CommitStatus := mkStatus {
  st_repo : string; st_sha : string;
  st_state : string; st_target_url : string;
  st_description : string; st_context : string
}.

(** GitHub: the commit statuses created so far, oldest first, and the issue
    comments (bodies, oldest first) of every pull-request thread. *)
Record GitHub := mkGitHub {
  statuses : list CommitStatus;
  threads : gmap (string * Z) (list string)
}.

(** The mutable part of the world: [os.environ], the subprocesses launched
    so far, GitHub, and the report files written (path and cases). *)
Record Sys := mkSys {
  environ : gmap string string;
  procs : list Proc;
  gh : GitHub;
  reports : list (string * list MyCase)
}.

(** The read-only part: what the file system and the external tools
    answer. *)
Record World := mkWorld {
  cwd : string;
  path_exists : string → bool;
  getsize : string → nat;
  read_bytes : string → outcome string;
  launch : Proc → outcome Completed;
  import_kconfiglib : option exception;
  kconfig_warnings : outcome (list string);
  write_fault : string → option exception
}.

(** ** The monad of the script *)

Record Run (A : Type) := mkRun {
  printed : list string;
  after : Sys;
  value : outcome A
}.
Arguments mkRun {A} _ _ _.
Arguments printed {A} _.
Arguments after {A} _.
Arguments value {A} _.

Definition M (A : Type) : Type := Sys → Run A.

#[export] Instance M_ret : MRet M := λ A a s, mkRun [] s (Returned a).

#[export] Instance M_bind : MBind M := λ A B k m s,
  let r := m s in
  match value r with
  | Returned a =>
    let r' := k a (after r) in
    mkRun (printed r ++ printed r') (after r') (value r')
  | Raised e => mkRun (printed r) (after r) (Raised e)
  end.

Definition raise {A} (e : exception) : M A := λ s, mkRun [] s (Raised e).

(** [print(line)] *)
Definition print (line : string) : M unit := λ s, mkRun [line] s (Returned tt).

Definition get_sys : M Sys := λ s, mkRun [] s (Returned s).

(** [sys.exit(code)] raises [SystemExit]. *)
Definition sys_exit {A} (code : option nat) : M A := raise (SystemExit code).

(** [for x in xs: acc = f(acc, x)] *)
Fixpoint for_each {A B} (f : B → A → M B) (xs : list A) (acc : B) : M B :=
  match xs with
  | [] => mret acc
  | x :: rest => acc' ← f acc x; for_each f rest acc'
  end.

(** [os.environ[k] = v] *)
Definition setenv (k v : string) : M unit := λ s,
  mkRun [] (mkSys (<[k := v]> (environ s)) (procs s) (gh s) (reports s))
        (Returned tt).

(** Launching a subprocess: the launch is recorded, and the world says
    whether it could start and how it ended. *)
Definition spawn (w : World) (p : Proc) : M Completed := λ s,
  mkRun [] (mkSys (environ s) (procs s ++ [p]) (gh s) (reports s))
        (launch w p).

(** [subprocess.Popen(args, shell=sh, ...)]: the process is started; its
    end is what a later [wait] or a reader of its pipe sees. *)
Definition Popen (w : World) (args : list string) (sh : bool) : M Completed :=
  spawn w (mkProc args sh).

(** [subprocess.check_output(args, shell=sh, ...)]: the output of a process
    that exits with 0, [CalledProcessError] for any other exit code. *)
Definition check_output (w : World) (args : list string) (sh : bool) : M string :=
  c ← spawn w (mkProc args sh);
  if bool_decide (returncode c = 0) then mret (output c)
  else raise (CalledProcessError (returncode c) (output c)).

(** [try: m except subprocess.CalledProcessError as ex: handler(ex)] *)
Definition try_CalledProcessError {A} (m : M A) (handler : Z → string → M A) : M A :=
  λ s,
  let r := m s in
  match value r with
  | Raised (CalledProcessError rc out) =>
    let r' := handler rc out (after r) in
    mkRun (printed r ++ printed r') (after r') (value r')
  | _ => r
  end.

(** An answer of the world, as a computation. *)
Definition answer {A} (o : outcome A) : M A := λ s, mkRun [] s o.

(** [b.decode('utf8')] *)
Definition decode_utf8 (b : string) : M string :=
  if Py.valid_utf8 b then mret b else raise UnicodeDecodeError.

(** [case.result._elem.text = t]: the text of the result element the case
    carries. *)
Definition set_result_text (c : MyCase) (t : string) : M MyCase :=
  match result c with
  | Some r => mret (set_result c (set_text r t))
  | None => raise (OtherError "AttributeError")
  end.

(** ** Checks *)

(** A check class: its [_name], its [_doc], and its [run] method, which
    leaves the test case in [self.case]; [run] returns that case. *)
Record ComplianceTest := mkTest {
  _name : string;
  _doc : string;
  run : World → string → M MyCase
}.

(** [ComplianceTest.prepare] *)
Definition prepare (test_name : string) : M MyCase :=
  let case := new_case test_name in
  let case := set_classname case "Guidelines" in
  _ ← print ("Running " +:+ test_name +:+ " tests...");
  mret case.

Module CheckPatch.

Definition _name : string := "checkpatch".
Definition _doc : string :=
  "https://docs.zephyrproject.org/latest/contribute/contribute_guidelines.html#coding-style".

Definition diff_proc (commit_range : string) : Proc :=
  mkProc ["git"; "diff"; commit_range] false.

Definition checkpatch_proc (checkpatch : string) : Proc :=
  mkProc [checkpatch; "--mailback"; "--no-tree"; "-"] true.

(** The body of [except subprocess.CalledProcessError as ex]. *)
Definition on_error (case : MyCase) (ex_output : string) : M MyCase :=
  decoded ← decode_utf8 ex_output;
  if Py.re_search_errors decoded then
    let case := set_result case (Failure "Checkpatch issues" "failure") in
    txt ← decode_utf8 ex_output;
    set_result_text case txt
  else mret case.

Definition run (w : World) (commit_range : string) : M MyCase :=
  case ← prepare _name;
  let checkpatch := cwd w +:+ "/scripts/checkpatch.pl" in
  let case :=
    if negb (path_exists w checkpatch)
    then set_result case (Skipped "checkpatch script not found" "skipped")
    else case in
  diff ← Popen w ["git"; "diff"; commit_range] false;
  try_CalledProcessError
    (_ ← check_output w [checkpatch; "--mailback"; "--no-tree"; "-"] true;
     mret case)
    (λ _ ex_output, on_error case ex_output).

Definition class : ComplianceTest := mkTest _name _doc run.

End CheckPatch.

(** [os.path.join(a, b)] *)
Definition path_join (a b : string) : string :=
  if String.prefix "/" b then b
  else if bool_decide (a = "") || String.prefix "/" (String.rev a) then a +:+ b
  else a +:+ "/" +:+ b.

Module KconfigCheck.

Definition _name : string := "Kconfig".
Definition _doc : string :=
  "https://docs.zephyrproject.org/latest/application/kconfig-tips.html".

Definition run (w : World) (commit_range : string) : M MyCase :=
  case ← prepare _name;
  s ← get_sys;
  match environ s !! "ZEPHYR_BASE" with
  | None => mret (set_result case (Skipped "Not a Zephyr tree" "skipped"))
  | Some repo_path =>
    let kconfig_path := path_join repo_path "scripts/kconfig" in
    if negb (path_exists w kconfig_path)
    then mret (set_result case (Error "Can't find Kconfig" "error"))
    else
      _ ← match import_kconfiglib w with
          | Some e => raise e
          | None => mret tt
          end;
      _ ← setenv "srctree" repo_path;
      _ ← setenv "SOC_DIR" "soc/";
      _ ← setenv "BOARD_DIR" "boards/*/*";
      _ ← setenv "ARCH" "*";
      _ ← setenv "KCONFIG_STRICT" "y";
      warnings ← answer (kconfig_warnings w);
      let undef_ref_warnings :=
        List.filter (Py.contains "undefined symbol") warnings in
      if bool_decide (undef_ref_warnings ≠ []) then
        let case := set_result case (Failure "undefined Kconfig symbols" "failure") in
        set_result_text case (Py.join (Py.NL +:+ Py.NL +:+ Py.NL) undef_ref_warnings)
      else mret case
  end.

Definition class : ComplianceTest := mkTest _name _doc run.

End KconfigCheck.

Module Documentation.

Definition _name : string := "Documentation".
Definition _doc : string :=
  "https://docs.zephyrproject.org/latest/contribute/doc-guidelines.html".
Definition DOCS_WARNING_FILE : string := "doc.warnings".

Definition run (w : World) (commit_range : string) : M MyCase :=
  case ← prepare _name;
  if path_exists w DOCS_WARNING_FILE && (0 <? getsize w DOCS_WARNING_FILE)%nat then
    log ← answer (read_bytes w DOCS_WARNING_FILE);
    let case := set_result case (Error "Documentation Issues" "failure") in
    txt ← decode_utf8 log;
    set_result_text case txt
  else mret case.

Definition class : ComplianceTest := mkTest _name _doc run.

End Documentation.

Module GitLint.

Definition _name : string := "Gitlint".
Definition _doc : string :=
  "https://docs.zephyrproject.org/latest/contribute/contribute_guidelines.html#commit-guidelines".

(** [msg] is the [str] it was initialised with, or the [bytes] read from
    the pipe; a [bytes] object never equals a [str]. *)
Inductive msg_t := Str (s : string) | Bytes (b : string).

Definition ne_str (m : msg_t) (s : string) : bool :=
  match m with
  | Str s' => bool_decide (s' ≠ s)
  | Bytes _ => true
  end.

Definition run (w : World) (commit_range : string) : M MyCase :=
  case ← prepare _name;
  proc ← Popen w ["gitlint --commits " +:+ commit_range] true;
  let msg := Str "" in
  let msg := if bool_decide (returncode proc ≠ 0) then Bytes (output proc) else msg in
  if ne_str msg "" then
    txt ← match msg with
          | Bytes b => decode_utf8 b
          | Str _ => raise (OtherError "AttributeError")
          end;
    let case := set_result case (Failure "commit message syntax issues" "failure") in
    set_result_text case txt
  else mret case.

Definition class : ComplianceTest := mkTest _name _doc run.

End GitLint.

(** Truthiness of a [str] that may be [None]. *)
Definition truthy (v : option string) : bool :=
  match v with
  | Some s => bool_decide (s ≠ "")
  | None => false
  end.

(** ** [sh] and [get_shas] *)

(** [sh.git(args...)]: git is run to its end; any exit code but 0 raises
    [ErrorReturnCode]; the result stands for the bytes it printed. *)
Definition sh_git (w : World) (args : list string) : M string :=
  c ← spawn w (mkProc ("git" :: args) false);
  if bool_decide (returncode c = 0) then mret (output c)
  else raise (OtherError "ErrorReturnCode").

(** [get_shas] *)
Definition get_shas (w : World) (refspec : string) : M (list string) :=
  out ← sh_git w ["rev-list";
                  "--max-count=" +:+ (if Py.contains "." refspec then "-1" else "1");
                  refspec];
  txt ← decode_utf8 out;
  mret (Py.split txt).

Module License.

Definition _name : string := "License".
Definition _doc : string :=
  "https://docs.zephyrproject.org/latest/contribute/contribute_guidelines.html#licensing".

(** One entry of [file['licenses']]. *)
Record license := mk_license { key : string; category : string }.

(** One entry of [scancode_results['files']], with the fields that the
    check reads. *)
Record file := mk_file {
  type : string;
  path : string;
  licenses : list license;
  is_script : bool;
  is_source : bool;
  programming_language : option string;
  extension : option string;
  copyrights : list string
}.

(** The three tests on one license of a file. *)
Definition license_lines (original_fp : string) (lic : license) : string :=
  (if bool_decide (key lic ≠ "apache-2.0")
   then "* " +:+ original_fp +:+ " is not apache-2.0 licensed: " +:+ key lic +:+ Py.NL
   else "")
  +:+ (if bool_decide (category lic ≠ "Permissive")
       then "* " +:+ original_fp +:+ " has non-permissive license: " +:+ key lic +:+ Py.NL
       else "")
  +:+ (if bool_decide (key lic = "unknown-spdx")
       then "* " +:+ original_fp +:+ " has unknown SPDX: " +:+ key lic +:+ Py.NL
       else "").

(** Which files are held to the rules: scripts and sources, but neither
    CMake files nor [.yaml] files. *)
Definition examined (f : file) : bool :=
  (is_script f || is_source f)
  && bool_decide (programming_language f ∉ [Some "CMake"])
  && bool_decide (extension f ∉ [Some ".yaml"]).

(** What one file adds to the report. *)
Definition file_lines (f : file) : string :=
  if bool_decide (type f = "directory") then ""
  else
    let original_fp := Py.replace "scancode-files/" "" (path f) in
    if examined f then
      (if bool_decide (licenses f = [])
       then "* " +:+ original_fp +:+ " missing license." +:+ Py.NL
       else fold_left (λ report lic, report +:+ license_lines original_fp lic)
                      (licenses f) "")
      +:+ (if bool_decide (copyrights f = [])
           then "* " +:+ original_fp +:+ " missing copyright." +:+ Py.NL
           else "")
    else "".

(** The loop of [run] over the files of the scan. *)
Definition report_of (files : list file) : string :=
  fold_left (λ report f, report +:+ file_lines f) files "".

(** The end of [run], once the scan is loaded. *)
Definition judge (case : MyCase) (files : list file) : M MyCase :=
  let report := report_of files in
  if bool_decide (report ≠ "") then
    let case := set_result case (Failure "License/Copyright issues" "failure") in
    set_result_text case report
  else mret case.

(** What the file system and the scan answer to [run]: whether the
    directories can be made, whether the new files (named in the output of
    git) can be copied, and what loading [scancode.json] gives. *)
Record oracle := mk_oracle {
  makedirs_fault : option exception;
  copy_fault : string → option exception;
  scancode_results : outcome (list file)
}.

Definition fault (f : option exception) : M unit :=
  match f with
  | Some e => raise e
  | None => mret tt
  end.

Definition scancode : string := "/opt/scancode-toolkit/scancode".

Definition cmd : list string :=
  [scancode; "--verbose"; "--copyright"; "--license"; "--license-diag"; "--info";
   "--classify"; "--summary"; "--html"; "scancode.html"; "--json"; "scancode.json";
   "scancode-files/"].

(** The rest of [run], once the new files are copied: the scan, and the
    verdict on what it found. *)
Definition scan_and_judge (o : oracle) (w : World) (case : MyCase) : M MyCase :=
  scanned ← try_CalledProcessError
              (_ ← check_output w [Py.join " " cmd] true; mret true)
              (λ _ _, mret false);
  if negb scanned then
    mret (set_result case (Error "Exception when running scancode" "error"))
  else
    files ← answer (scancode_results o);
    judge case files.

Definition run (o : oracle) (w : World) (commit_range : string) : M MyCase :=
  case ← prepare _name;
  if negb (path_exists w scancode) then
    mret (set_result case (Skipped "scancode-toolkit not installed" "skipped"))
  else
    _ ← fault (makedirs_fault o);
    new_files ← sh_git w ["diff"; "--name-only"; "--diff-filter=A"; commit_range];
    new_files ← decode_utf8 new_files;
    if bool_decide (new_files = "") then mret case
    else
      _ ← fault (copy_fault o new_files);
      scan_and_judge o w case.

Definition class (o : oracle) : ComplianceTest := mkTest _name _doc (run o).

End License.

Module Identity.

Definition _name : string := "Identity/Emails".
Definition _doc : string :=
  "https://docs.zephyrproject.org/latest/contribute/contribute_guidelines.html#commit-guidelines".

(** What the loop over the lines of [git log] has gathered for one commit:
    [sha], [author], the [signed] list, and [parsed_addr] (the pair that
    [parseaddr] gave for the author, [None] without an author line). *)
Record commit := mk_commit {
  sha : string;
  author : string;
  signed : list string;
  parsed_addr : option (string * string)
}.

(** The [failure] of one commit. *)
Definition failure_of (c : commit) : option string :=
  let error1 := sha c +:+ ": author email (" +:+ author c
                +:+ ") needs to match one of the signed-off-by entries." in
  let error2 := sha c +:+ ": author email (" +:+ author c
                +:+ ") does not follow the syntax: First Last <email>." in
  let failure := None in
  let failure :=
    if bool_decide (author c ∉ signed c) then Some error1 else failure in
  let failure :=
    if match parsed_addr c with
       | None => true
       | Some (realname, _) => (Py.count_pieces (Ascii.ascii_of_nat 32) realname <? 2)%nat
       end
    then (if truthy failure then Some (Py.format failure +:+ Py.NL +:+ error2)
          else Some error2)
    else failure in
  failure.

(** The end of the body of the loop of [run] over the commits: the case
    gets a new result for every commit that has a failure. *)
Definition record (case : MyCase) (c : commit) : M MyCase :=
  let failure := failure_of c in
  if truthy failure then
    let case := set_result case (Failure "identity/email issues" "failure") in
    set_result_text case (default "" failure)
  else mret case.

Definition record_all (case : MyCase) (commits : list commit) : M MyCase :=
  for_each record commits case.

End Identity.

(** ** Command line *)

Module Args.
Record t := mk {
  commits : option string;
  github : bool;
  repo : option string;
  pull_request : Z;
  status : bool;
  sha : option string;
  output : string;
  module : list string;
  exclude_module : list string;
  list : bool
}.
End Args.

(** ** GitHub (PyGithub) *)

Definition with_github (f : GitHub → GitHub) : M unit := λ s,
  mkRun [] (mkSys (environ s) (procs s) (f (gh s)) (reports s)) (Returned tt).

(** [github_conn.get_repo(repo)] and [repo.get_commit(sha)] assert that
    their argument is a string. *)
Definition get_str (v : option string) : M string :=
  match v with
  | Some s => mret s
  | None => raise AssertionError
  end.

(** [commit.create_status(state, target_url, description, context)] *)
Definition create_status (repo sha state target_url description context : string)
  : M unit :=
  with_github (λ g,
    mkGitHub (statuses g ++ [mkStatus repo sha state target_url description context])
             (threads g)).

Definition thread_of (g : GitHub) (repo : string) (pull_request : Z) : list string :=
  default [] (threads g !! (repo, pull_request)).

(** [gh_pr.get_issue_comments()] *)
Definition get_issue_comments (repo : string) (pull_request : Z) : M (list string) :=
  s ← get_sys; mret (thread_of (gh s) repo pull_request).

(** [cmnt.edit(body)] on the [i]-th comment of the thread. *)
Definition edit (repo : string) (pull_request : Z) (i : nat) (body : string) : M unit :=
  with_github (λ g,
    mkGitHub (statuses g)
             (<[(repo, pull_request) := <[i := body]> (thread_of g repo pull_request)]>
                (threads g))).

(** [gh_pr.create_issue_comment(body)] *)
Definition create_issue_comment (repo : string) (pull_request : Z) (body : string)
  : M unit :=
  with_github (λ g,
    mkGitHub (statuses g)
             (<[(repo, pull_request) := (thread_of g repo pull_request ++ [body])%list]>
                (threads g))).

(** [docs[key]] *)
Definition dict_get (docs : gmap string string) (key : string) : M string :=
  match docs !! key with
  | Some v => mret v
  | None => raise (KeyError key)
  end.

(** [set_status] *)
Definition set_status (subclasses : list ComplianceTest) (repo sha : option string)
  : M unit :=
  s ← get_sys;
  if bool_decide ("GH_TOKEN" ∉ dom (environ s)) then mret tt
  else
    repo ← get_str repo;
    sha ← get_str sha;
    for_each (λ _ test,
        _ ← print ("Creating status for " +:+ _name test);
        create_status repo sha "pending" (_doc test) "Verification in progress"
                      (_name test))
      subclasses tt.

Definition marker : string := "Found the following issues, please fix and resubmit".

Definition prose_checks : list string := ["Gitlint"; "Identity/Emails"; "License"].

(** The test of both result loops: [case.result and case.result.type != 'skipped']. *)
Definition reported (case : MyCase) : bool :=
  match result case with
  | Some r => bool_decide (type_ r ≠ Some "skipped")
  | None => false
  end.

(** What one reported case adds to the comment. *)
Definition comment_section (case : MyCase) : string :=
  let fence := if bool_decide (name case ∉ prose_checks) then "```" +:+ Py.NL else "" in
  ("## " +:+ Py.format (r ← result case; message r) +:+ Py.NL)
  +:+ Py.NL
  +:+ fence
  +:+ (Py.format (r ← result case; text r) +:+ Py.NL)
  +:+ fence.

(** The loop over the comments of the thread: the first one that carries
    the marker is edited and the loop is left. *)
Fixpoint edit_marked (repo : string) (pull_request : Z) (comments : list string)
    (i : nat) (comment : string) : M bool :=
  match comments with
  | [] => mret false
  | body :: rest =>
    if Py.contains marker body
    then _ ← edit repo pull_request i comment; mret true
    else edit_marked repo pull_request rest (S i) comment
  end.

(** The body of the loop of [report_to_github] over the cases of the suite;
    the accumulator is [(comment, comment_count)]. *)
Definition report_case (repo sha : string) (docs : gmap string string)
    (acc : string * nat) (case : MyCase) : M (string * nat) :=
  let '(comment, comment_count) := acc in
  if reported case then
    let comment_count := (comment_count + 1)%nat in
    let comment := comment +:+ comment_section case in
    url ← dict_get docs (name case);
    _ ← create_status repo sha "failure" url "Verification failed" (name case);
    mret (comment, comment_count)
  else
    url ← dict_get docs (name case);
    _ ← create_status repo sha "success" url "Verifications passed" (name case);
    mret (comment, comment_count).

(** [report_to_github]; the result is [None] for the bare [return].  The
    [repo] tested before the comment is looked up is the repository object
    by then, which is truthy; calls to the GitHub API are taken to
    succeed. *)
Definition report_to_github (repo : option string) (pull_request : Z)
    (sha : option string) (suite : list MyCase) (docs : gmap string string)
  : M (option nat) :=
  s ← get_sys;
  if bool_decide ("GH_TOKEN" ∉ dom (environ s)) then mret None
  else
    repo ← get_str repo;
    sha ← get_str sha;
    let comment := marker +:+ ":" +:+ Py.NL +:+ Py.NL in
    let comment_count := 0%nat in
    _ ← print "Processing results...";
    '(comment, comment_count) ←
      for_each (report_case repo sha docs) suite (comment, comment_count);
    _ ← (if bool_decide (pull_request ≠ 0) && (0 <? comment_count)%nat then
           comments ← get_issue_comments repo pull_request;
           commented ← edit_marked repo pull_request comments 0 comment;
           if negb commented then create_issue_comment repo pull_request comment
           else mret tt
         else mret tt);
    mret (Some comment_count).

(** ** The runner *)

(** The loop of [main] over the check classes. *)
Fixpoint run_tests (w : World) (args : Args.t) (subclasses : list ComplianceTest)
    (suite : list MyCase) (docs : gmap string string)
  : M (list MyCase * gmap string string) :=
  match subclasses with
  | [] => mret (suite, docs)
  | test :: rest =>
    if bool_decide (Args.module args ≠ []) then
      if bool_decide (_name test ∈ Args.module args) then
        case ← run test w (default "" (Args.commits args));
        run_tests w args rest (suite ++ [case])%list (<[name case := _doc test]> docs)
      else run_tests w args rest suite docs
    else
      if bool_decide (_name test ∈ Args.exclude_module args) then
        _ ← print ("Skipping " +:+ _name test);
        run_tests w args rest suite docs
      else
        case ← run test w (default "" (Args.commits args));
        run_tests w args rest (suite ++ [case])%list (<[name case := _doc test]> docs)
  end.

(** [xml.add_testsuite(suite); xml.update_statistics(); xml.write(path)]: the
    cases of the suite go to the file, unless the file cannot be written. *)
Definition xml_write (w : World) (path : string) (suite : list MyCase) : M unit :=
  match write_fault w path with
  | Some e => raise e
  | None => λ s,
    mkRun [] (mkSys (environ s) (procs s) (gh s) (reports s ++ [(path, suite)]))
          (Returned tt)
  end.

(** The counting loop of [main] when nothing is published. *)
Definition count_errors (suite : list MyCase) : nat :=
  fold_left (λ errors case, if reported case then (errors + 1)%nat else errors) suite 0%nat.

(** The tail of [main], from the writing of the report to [sys.exit]. *)
Definition conclude (w : World) (args : Args.t) (suite : list MyCase)
    (docs : gmap string string) : M unit :=
  _ ← xml_write w (Args.output args) suite;
  let errors := Some 0%nat in
  s ← get_sys;
  errors ← (if Args.github args && bool_decide ("GH_TOKEN" ∈ dom (environ s))
            then report_to_github (Args.repo args) (Args.pull_request args)
                                  (Args.sha args) suite docs
            else mret (Some (count_errors suite)));
  _ ← (match errors with
       | Some (S n) => print (pretty (S n) +:+ " Errors found")
       | _ => mret tt
       end);
  sys_exit errors.

(** [main]; [subclasses] is [ComplianceTest.__subclasses__()], the check
    classes in the order of their definition. *)
Definition main (subclasses : list ComplianceTest) (w : World) (args : Args.t) : M unit :=
  if Args.list args then
    _ ← for_each (λ _ test, print (_name test)) subclasses tt;
    sys_exit (Some 0%nat)
  else if Args.status args && bool_decide (is_Some (Args.sha args))
          && truthy (Args.repo args) then
    _ ← set_status subclasses (Args.repo args) (Args.sha args);
    sys_exit (Some 0%nat)
  else if negb (truthy (Args.commits args)) then
    _ ← print "No commit range given.";
    sys_exit (Some 1%nat)
  else
    '(suite, docs) ← run_tests w args subclasses [] ∅;
    conclude w args suite docs.

(** The exit status of the process: the code of [SystemExit] ([None] is 0),
    1 for any other uncaught exception, 0 when the script runs off its end.
    The code is the integer given to [sys.exit]; the operating system keeps
    its low eight bits, which cannot show with fewer than 256 checks. *)
Definition exit_status {A} (r : Run A) : nat :=
  match value r with
  | Returned _ => 0
  | Raised (SystemExit code) => default 0%nat code
  | Raised _ => 1
  end.

(** ** Notions used in the statements *)

(** Every result the checks build pairs the [skipped] element with the type
    ["skipped"], and no other element with it. *)
Definition wf_result (r : Result) : Prop :=
  tag r = TagSkipped ↔ type_ r = Some "skipped".

Definition wf_case (c : MyCase) : Prop :=
  ∀ r, result c = Some r → wf_result r.

Definition failed_or_error (c : MyCase) : bool :=
  match status_of c with
  | Failed | Errored => true
  | Passed | SkippedStatus => false
  end.

(** Publishing is on when [--github] is given and the token is set. *)
Definition publishing (args : Args.t) (s : Sys) : bool :=
  Args.github args && bool_decide ("GH_TOKEN" ∈ dom (environ s)).

(** The commit status that the publishing loop creates for a case. *)
Definition status_entry (repo sha : string) (docs : gmap string string) (c : MyCase)
  : CommitStatus :=
  if reported c
  then mkStatus repo sha "failure" (default "" (docs !! name c))
                "Verification failed" (name c)
  else mkStatus repo sha "success" (default "" (docs !! name c))
                "Verifications passed" (name c).

(** The comment that the publishing loop builds. *)
Definition comment_of (suite : list MyCase) : string :=
  fold_left (λ comment case,
               if reported case then comment +:+ comment_section case else comment)
            suite (marker +:+ ":" +:+ Py.NL +:+ Py.NL).

(** Editing the first comment that carries the marker, if there is one. *)
Fixpoint replace_marked (comment : string) (comments : list string)
  : option (list string) :=
  match comments with
  | [] => None
  | body :: rest =>
    if Py.contains marker body then Some (comment :: rest)
    else cons body <$> replace_marked comment rest
  end.

(** Edit in place, or else append one comment. *)
Definition merge_or_create (comment : string) (comments : list string) : list string :=
  default (comments ++ [comment])%list (replace_marked comment comments).

Definition count_marked (comments : list string) : nat :=
  length (List.filter (Py.contains marker) comments).

Definition set_gh (s : Sys) (g : GitHub) : Sys :=
  mkSys (environ s) (procs s) g (reports s).

Definition add_statuses (g : GitHub) (l : list CommitStatus) : GitHub :=
  mkGitHub (statuses g ++ l) (threads g).

Definition set_thread (g : GitHub) (repo : string) (pull_request : Z)
    (comments : list string) : GitHub :=
  mkGitHub (statuses g) (<[(repo, pull_request) := comments]> (threads g)).

(** Every case of the suite has an entry in [docs]. *)
Definition covers (docs : gmap string string) (suite : list MyCase) : Prop :=
  Forall (λ c, is_Some (docs !! name c)) suite.

(** The world after a publication that ran to its end. *)
Definition published (s : Sys) (repo : string) (pull_request : Z) (sha : string)
    (suite : list MyCase) (docs : gmap string string) : Sys :=
  let g := add_statuses (gh s) (map (status_entry repo sha docs) suite) in
  if bool_decide (pull_request ≠ 0) && (0 <? count_errors suite)%nat
  then set_gh s (set_thread g repo pull_request
                   (merge_or_create (comment_of suite) (thread_of g repo pull_request)))
  else set_gh s g.

(** The position of the first comment that carries the marker. *)
Fixpoint first_marked (comments : list string) : option nat :=
  match comments with
  | [] => None
  | body :: rest =>
    if Py.contains marker body then Some 0%nat else S <$> first_marked rest
  end.

(** Running every check of a list, one after the other. *)
Fixpoint run_all (w : World) (commit_range : string) (tests : list ComplianceTest)
    (suite : list MyCase) (docs : gmap string string)
  : M (list MyCase * gmap string string) :=
  match tests with
  | [] => mret (suite, docs)
  | test :: rest =>
    case ← run test w commit_range;
    run_all w commit_range rest (suite ++ [case])%list (<[name case := _doc test]> docs)
  end.

(** The checks that the filters of the command line let through. *)
Definition selected (args : Args.t) (subclasses : list ComplianceTest)
  : list ComplianceTest :=
  if bool_decide (Args.module args ≠ [])
  then filter (λ t, _name t ∈ Args.module args) subclasses
  else filter (λ t, _name t ∉ Args.exclude_module args) subclasses.

(** The command line asks for a run of the checks: neither [--list], nor
    the pending-status mode, and a commit range is given. *)
Definition runs_checks (args : Args.t) : Prop :=
  Args.list args = false
  ∧ Args.status args && bool_decide (is_Some (Args.sha args))
    && truthy (Args.repo args) = false
  ∧ truthy (Args.commits args) = true.

(** The same command line with [--github] given or not. *)
Definition set_github (args : Args.t) (b : bool) : Args.t :=
  Args.mk (Args.commits args) b (Args.repo args) (Args.pull_request args)
          (Args.status args) (Args.sha args) (Args.output args)
          (Args.module args) (Args.exclude_module args) (Args.list args).

(** The world once the report is written. *)
Definition add_report (s : Sys) (path : string) (suite : list MyCase) : Sys :=
  mkSys (environ s) (procs s) (gh s) (reports s ++ [(path, suite)]).

(** The line that [main] prints before it exits with a count. *)
Definition errors_found (n : nat) : list string :=
  match n with
  | O => []
  | S _ => [pretty n +:+ " Errors found"]
  end.

Definition add_proc (s : Sys) (p : Proc) : Sys :=
  mkSys (environ s) (procs s ++ [p]) (gh s) (reports s).

(** What [prepare] and the body of a check leave in a case: the name of the
    check, the class name, no [doc], and a result that pairs element and
    type. *)
Definition built_by (test : ComplianceTest) (case : MyCase) : Prop :=
  wf_case case
  ∧ name case = _name test
  ∧ classname case = Some "Guidelines"
  ∧ doc case = None.

(** The value that a run returned, if it returned. *)
Definition value_of {A} (r : Run A) : option A :=
  match value r with
  | Returned a => Some a
  | Raised _ => None
  end.

(** The variables that the Kconfig check sets. *)
Definition kconfig_vars : list string :=
  ["srctree"; "SOC_DIR"; "BOARD_DIR"; "ARCH"; "KCONFIG_STRICT"].

(** [s'] differs from [s] at most in the processes launched and in the
    variables of the Kconfig check. *)
Definition same_outside (s s' : Sys) : Prop :=
  gh s' = gh s
  ∧ reports s' = reports s
  ∧ ∀ k, k ∉ kconfig_vars → environ s' !! k = environ s !! k.

(** A computation that leaves the world as [same_outside] says. *)
Definition contained {A} (m : M A) : Prop := ∀ s, same_outside s (after (m s)).

Fixpoint all_digits (s : string) : bool :=
  match s with
  | EmptyString => true
  | String a r => Py.is_digit a && all_digits r
  end.

(** [needle] occurs in [hay]. *)
Definition occurs_in (needle hay : string) : Prop :=
  ∃ before later, hay = before +:+ needle +:+ later.

(** A name as git prints it: no byte but printable ASCII characters other
    than the space. *)
Fixpoint graphic (s : string) : bool :=
  match s with
  | EmptyString => true
  | String a r => Py.byte_in 33 126 a && graphic r
  end.

(** What [git rev-list] prints for a list of commits: one name to a line. *)
Definition rev_list_output (shas : list string) : string :=
  fold_right (λ sha rest, sha +:+ Py.NL +:+ rest) "" shas.

(** The [git rev-list] that [get_shas] runs, for a count. *)
Definition rev_list (count refspec : string) : Proc :=
  mkProc ["git"; "rev-list"; "--max-count=" +:+ count; refspec] false.

(** The [git diff] that the license check runs. *)
Definition diff_added (commit_range : string) : Proc :=
  mkProc ["git"; "diff"; "--name-only"; "--diff-filter=A"; commit_range] false.

(** The scan that the license check runs, through the shell. *)
Definition scan_proc : Proc := mkProc [Py.join " " License.cmd] true.

(** A license the rules accept. *)
Definition accepted (lic : License.license) : bool :=
  bool_decide (License.key lic = "apache-2.0")
  && bool_decide (License.category lic = "Permissive").

(** A file of the scan that the license check has nothing to say about: a
    directory, a file that is not examined, or one with a copyright and
    with licenses that are all accepted. *)
Definition in_order (f : License.file) : bool :=
  bool_decide (License.type f = "directory")
  || negb (License.examined f)
  || (bool_decide (License.licenses f ≠ [])
      && forallb accepted (License.licenses f)
      && bool_decide (License.copyrights f ≠ [])).

(** The failure that the loop of the identity check leaves for the
    message [m]. *)
Definition identity_failed (case : MyCase) (m : string) : MyCase :=
  set_result case (set_text (Failure "identity/email issues" "failure") m).


(** ** Example inputs *)

Module Ex.

(** A world without a checkout: no file exists, every process exits
    with 0 and prints nothing. *)
Definition quiet : World :=
  mkWorld "/repo" (λ _, false) (λ _, 0%nat) (λ _, Raised (OSError "ENOENT"))
          (λ _, Returned (mkCompleted 0 "")) None (Returned []) (λ _, None).

Definition no_token : Sys := mkSys ∅ [] (mkGitHub [] ∅) [].
Definition with_token : Sys :=
  mkSys {["GH_TOKEN" := "secret"]} [] (mkGitHub [] ∅) [].

Definition four : list string := ["checkpatch"; "Kconfig"; "Documentation"; "Gitlint"].

(** [-c HEAD~1.. -m checkpatch -m Kconfig -m Documentation -m Gitlint] *)
Definition local_args : Args.t :=
  Args.mk (Some "HEAD~1..") false None 0 false None "compliance.xml" four [] false.

(** The same with [-g -r zephyr/ci -p 7 -S abc123]. *)
Definition github_args : Args.t :=
  Args.mk (Some "HEAD~1..") true (Some "zephyr/ci") 7 false (Some "abc123")
          "compliance.xml" four [] false.

Definition passed (n : string) : MyCase := mkCase n (Some "Guidelines") None None.

Definition gitlint_failed : MyCase :=
  set_result (passed "Gitlint")
    (set_text (Failure "commit message syntax issues" "failure") "line too long").

Definition kconfig_skipped : MyCase :=
  set_result (passed "Kconfig") (Skipped "Not a Zephyr tree" "skipped").

Definition docs_error : MyCase :=
  set_result (passed "Documentation")
    (set_text (Error "Documentation Issues" "failure") "WARNING: x").

Definition suite4 : list MyCase :=
  [passed "checkpatch"; kconfig_skipped; docs_error; gitlint_failed].

Definition docs4 : gmap string string :=
  <["Gitlint" := GitLint._doc]>
    (<["Documentation" := Documentation._doc]>
       (<["Kconfig" := KconfigCheck._doc]>
          (<["checkpatch" := CheckPatch._doc]> ∅))).

(** A thread that still shows the comment of an earlier, failing run. *)
Definition stale : Sys :=
  mkSys {["GH_TOKEN" := "secret"]} []
        (mkGitHub [] {[("zephyr/ci", 7) :=
                         ["Looks good to me"; marker +:+ ": an earlier run"]]})
        [].

(** The same thread after a reviewer answered above it, quoting the
    phrase. *)
Definition quoted : Sys :=
  mkSys {["GH_TOKEN" := "secret"]} []
        (mkGitHub [] {[("zephyr/ci", 7) :=
                         ["> Found the following issues, please fix and resubmit: I did, see above";
                          marker +:+ ": an earlier run"]]})
        [].

Definition clean_suite : list MyCase := [passed "checkpatch"; kconfig_skipped].

(** [-c HEAD~1.. -m Documentation] *)
Definition docs_only_args : Args.t :=
  Args.mk (Some "HEAD~1..") false None 0 false None "compliance.xml"
          ["Documentation"] [] false.

(** [-c HEAD~1.. -m Documentation -m Kconfig -m NoSuchCheck -e Kconfig] *)
Definition include_args : Args.t :=
  Args.mk (Some "HEAD~1..") false None 0 false None "compliance.xml"
          ["Documentation"; "Kconfig"; "NoSuchCheck"] ["Kconfig"] false.

(** A checkout whose [doc.warnings] holds one byte that is not UTF-8. *)
Definition garbled : World :=
  mkWorld "/repo" (λ p, bool_decide (p = "doc.warnings")) (λ _, 1%nat)
          (λ _, Returned (String (Ascii.ascii_of_nat 255) ""))
          (λ _, Returned (mkCompleted 0 "")) None (Returned []) (λ _, None).

(** A checkout without [scripts/checkpatch.pl]: the shell reports the
    missing script and exits with 127; the checkout lives in a directory
    called "0 errors, 1 errors, fixed". *)
Definition no_script : World :=
  mkWorld "/work/0 errors, 1 errors, fixed" (λ _, false) (λ _, 0%nat)
          (λ _, Raised (OSError "ENOENT"))
          (λ p, if bool_decide (argv p = ["/work/0 errors, 1 errors, fixed/scripts/checkpatch.pl";
                                          "--mailback"; "--no-tree"; "-"])
                then Returned (mkCompleted 127
                       "/bin/sh: 1: /work/0 errors, 1 errors, fixed/scripts/checkpatch.pl: not found")
                else Returned (mkCompleted 0 ""))
          None (Returned []) (λ _, None).

(** A failing license check, with the text that the scan reported. *)
Definition license_failed (report : string) : MyCase :=
  set_result (passed "License")
    (set_text (Failure "License/Copyright issues" "failure") report).

Definition license_docs : gmap string string :=
  {["License" :=
      "https://docs.zephyrproject.org/latest/contribute/contribute_guidelines.html#licensing"]}.

(** Three checks that pass, named A, B and C. *)
Definition abc : list ComplianceTest :=
  (λ n, mkTest n "" (λ _ _, prepare n)) <$> ["A"; "B"; "C"].

(** [-c HEAD~1.. -m B] *)
Definition only_b : Args.t :=
  Args.mk (Some "HEAD~1..") false None 0 false None "compliance.xml" ["B"] [] false.

(** [-l -g -s -e Kconfig], no commit range *)
Definition list_args : Args.t :=
  Args.mk None true None 0 true None "compliance.xml" [] ["Kconfig"] true.

(** [-s -S abc123 -r zephyr/ci], no commit range *)
Definition status_args : Args.t :=
  Args.mk None false (Some "zephyr/ci") 0 true (Some "abc123") "compliance.xml" [] [] false.

(** A Zephyr tree whose Kconfig files refer to two undefined symbols. *)
Definition zephyr : World :=
  mkWorld "/zephyr" (λ _, true) (λ _, 0%nat) (λ _, Raised (OSError "ENOENT"))
          (λ _, Returned (mkCompleted 0 "")) None
          (Returned ["warning: undefined symbol FOO"; "warning: style";
                     "warning: undefined symbol BAR"])
          (λ _, None).

Definition zephyr_env : Sys :=
  mkSys {["ZEPHYR_BASE" := "/zephyr"]} [] (mkGitHub [] ∅) [].

(** A checkout in which every command exits with 1 and prints nothing. *)
Definition failing_tools : World :=
  mkWorld "/repo" (λ _, true) (λ _, 0%nat) (λ _, Raised (OSError "ENOENT"))
          (λ _, Returned (mkCompleted 1 "")) None (Returned []) (λ _, None).

(** A checkout whose documentation build left one warning. *)
Definition warned : World :=
  mkWorld "/repo" (λ p, bool_decide (p = "doc.warnings")) (λ _, 11%nat)
          (λ _, Returned "WARNING: x")
          (λ _, Returned (mkCompleted 0 "")) None (Returned []) (λ _, None).

Definition checks4 : list ComplianceTest :=
  [CheckPatch.class; KconfigCheck.class; Documentation.class; GitLint.class].

(** A checkout where scancode is installed and every process exits with 0;
    git prints [git_says], the other processes print nothing. *)
Definition scanning (git_says : string) : World :=
  mkWorld "/repo" (λ p, bool_decide (p = License.scancode)) (λ _, 0%nat)
          (λ _, Raised (OSError "ENOENT"))
          (λ p, Returned (mkCompleted 0 (if bool_decide (head (argv p) = Some "git")
                                         then git_says else "")))
          None (Returned []) (λ _, None).

(** The same, but the scan exits with 2. *)
Definition scan_crashes : World :=
  mkWorld "/repo" (λ p, bool_decide (p = License.scancode)) (λ _, 0%nat)
          (λ _, Raised (OSError "ENOENT"))
          (λ p, Returned (if bool_decide (head (argv p) = Some "git")
                          then mkCompleted 0 ("drivers/new.c" +:+ Py.NL)
                          else mkCompleted 2 "Traceback"))
          None (Returned []) (λ _, None).

(** The directory of the copies, and a new C file under the GPL. *)
Definition copies : License.file :=
  License.mk_file "directory" "scancode-files" [] false false None None [].

Definition new_c : License.file :=
  License.mk_file "file" "scancode-files/drivers/new.c"
                  [License.mk_license "gpl-2.0" "Copyleft"] false true
                  (Some "C") (Some ".c") ["Copyright (c) 2018 Intel Corporation"].

(** A new C file that says nothing about its license. *)
Definition bare_c : License.file :=
  License.mk_file "file" "scancode-files/drivers/bare.c" [] false true
                  (Some "C") (Some ".c") ["Copyright (c) 2018 Intel Corporation"].

(** Nothing goes wrong with the files, and the scan found [files]. *)
Definition scan (files : list License.file) : License.oracle :=
  License.mk_oracle None (λ _, None) (Returned files).

(** The scan left no readable [scancode.json]. *)
Definition no_json : License.oracle :=
  License.mk_oracle None (λ _, None) (Raised (OSError "ENOENT")).

(** A commit whose author line is a bare address, and that nobody signed
    off. *)
Definition unsigned : Identity.commit :=
  Identity.mk_commit "1f3a9c0b" "jo@example.com" [] (Some ("", "jo@example.com")).

End Ex.

(** ** Properties *)

(** *** Results built by the checks *)

Lemma wf_new_skipped msg : wf_result (Skipped msg "skipped").
Proof. split; reflexivity. Qed.

Lemma wf_new_failure msg : wf_result (Failure msg "failure").
Proof. split; discriminate. Qed.

Lemma wf_new_error msg ty : ty ≠ "skipped" → wf_result (Error msg ty).
Proof.
  intros Hty. split; [discriminate|].
  unfold Error, new_result; simpl. case_bool_decide; [discriminate|congruence].
Qed.

Lemma wf_set_text r t : wf_result r → wf_result (set_text r t).
Proof. intros H. exact H. Qed.

Lemma wf_case_set_result c r : wf_result r → wf_case (set_result c r).
Proof. intros H r' Hr'. simpl in Hr'. congruence. Qed.

(** Under that pairing the test of the two loops is the status test. *)
Lemma reported_failed_or_error c : wf_case c → reported c = failed_or_error c.
Proof.
  intros Hwf. unfold reported, failed_or_error, status_of.
  destruct (result c) as [r|] eqn:Hr; [|reflexivity].
  specialize (Hwf r Hr). destruct Hwf as [H1 H2].
  destruct (tag r) eqn:Ht.
  - rewrite bool_decide_eq_false. intros Hne. apply Hne. apply H1. reflexivity.
  - rewrite bool_decide_eq_true. intros Heq. specialize (H2 Heq). discriminate.
  - rewrite bool_decide_eq_true. intros Heq. specialize (H2 Heq). discriminate.
Qed.

(** *** The counting loop *)

Lemma count_from (suite : list MyCase) (n : nat) :
  fold_left (λ errors case, if reported case then (errors + 1)%nat else errors) suite n
  = (n + length (List.filter reported suite))%nat.
Proof.
  revert n. induction suite as [|c suite IH]; intros n; simpl.
  - lia.
  - rewrite IH. destruct (reported c); simpl; lia.
Qed.

Lemma count_errors_filter suite : count_errors suite = length (List.filter reported suite).
Proof. unfold count_errors. rewrite count_from. reflexivity. Qed.

Lemma filter_reported_status suite :
  Forall wf_case suite → List.filter reported suite = List.filter failed_or_error suite.
Proof.
  induction 1 as [|c suite Hc _ IH]; simpl; [reflexivity|].
  rewrite (reported_failed_or_error c Hc), IH. reflexivity.
Qed.

(** The count is at most the number of cases, so at most the number of
    checks. *)
Lemma count_errors_le suite : (count_errors suite ≤ length suite)%nat.
Proof.
  rewrite count_errors_filter. induction suite as [|c suite IH]; simpl; [lia|].
  destruct (reported c); simpl; lia.
Qed.

(** *** The monad *)

Lemma bind_returned {A B} (m : M A) (k : A → M B) s a :
  value (m s) = Returned a →
  (m ≫= k) s = mkRun (printed (m s) ++ printed (k a (after (m s))))
                     (after (k a (after (m s)))) (value (k a (after (m s)))).
Proof. intros H. unfold mbind, M_bind. rewrite H. reflexivity. Qed.

Lemma bind_raised {A B} (m : M A) (k : A → M B) s e :
  value (m s) = Raised e →
  (m ≫= k) s = mkRun (printed (m s)) (after (m s)) (Raised e).
Proof. intros H. unfold mbind, M_bind. rewrite H. reflexivity. Qed.

Lemma run_eta {A} (r : Run A) : mkRun (printed r) (after r) (value r) = r.
Proof. destruct r; reflexivity. Qed.

Lemma set_gh_gh s : set_gh s (gh s) = s.
Proof. destruct s; reflexivity. Qed.

Lemma add_statuses_nil g : add_statuses g [] = g.
Proof. destruct g; unfold add_statuses; simpl. rewrite app_nil_r. reflexivity. Qed.

Lemma add_statuses_app g l1 l2 :
  add_statuses (add_statuses g l1) l2 = add_statuses g (l1 ++ l2).
Proof. unfold add_statuses; simpl. rewrite app_assoc. reflexivity. Qed.

Lemma for_each_cons {A B} (f : B → A → M B) x rest acc :
  for_each f (x :: rest) acc = f acc x ≫= for_each f rest.
Proof. reflexivity. Qed.

(** *** The publishing loop *)

Lemma report_case_covered repo sha docs comment n c s :
  is_Some (docs !! name c) →
  report_case repo sha docs (comment, n) c s
  = mkRun [] (set_gh s (add_statuses (gh s) [status_entry repo sha docs c]))
          (Returned (if reported c then comment +:+ comment_section c else comment,
                     if reported c then (n + 1)%nat else n)).
Proof.
  intros [url Hurl]. unfold report_case, status_entry, dict_get.
  rewrite Hurl. destruct (reported c); reflexivity.
Qed.

Lemma report_case_missing repo sha docs acc c s :
  docs !! name c = None →
  report_case repo sha docs acc c s = mkRun [] s (Raised (KeyError (name c))).
Proof.
  intros Hnone. destruct acc as [comment n]. unfold report_case, dict_get.
  rewrite Hnone. destruct (reported c); reflexivity.
Qed.

Lemma report_loop_covered repo sha docs suite : ∀ comment n s,
  covers docs suite →
  for_each (report_case repo sha docs) suite (comment, n) s
  = mkRun [] (set_gh s (add_statuses (gh s) (map (status_entry repo sha docs) suite)))
          (Returned
             (fold_left (λ comment case,
                           if reported case then comment +:+ comment_section case
                           else comment) suite comment,
              fold_left (λ errors case,
                           if reported case then (errors + 1)%nat else errors)
                        suite n)).
Proof.
  induction suite as [|c suite IH]; intros comment n s Hcov.
  - simpl. rewrite add_statuses_nil, set_gh_gh. reflexivity.
  - inversion Hcov as [|? ? Hc Hrest]; subst.
    rewrite for_each_cons.
    erewrite bind_returned; [|rewrite report_case_covered by exact Hc; reflexivity].
    rewrite report_case_covered by exact Hc. cbn [printed after value].
    rewrite IH by exact Hrest. simpl.
    rewrite add_statuses_app. reflexivity.
Qed.

(** Whatever [docs] holds, the loop leaves everything but the statuses
    alone, prints nothing, and returns the comment and the count if it
    returns. *)
Lemma report_loop_frame repo sha docs suite : ∀ comment n s,
  let r := for_each (report_case repo sha docs) suite (comment, n) s in
  printed r = []
  ∧ (∃ l, after r = set_gh s (add_statuses (gh s) l))
  ∧ ∀ acc, value r = Returned acc →
      acc = (fold_left (λ comment case,
                          if reported case then comment +:+ comment_section case
                          else comment) suite comment,
             fold_left (λ errors case,
                          if reported case then (errors + 1)%nat else errors)
                       suite n).
Proof.
  induction suite as [|c suite IH]; intros comment n s.
  - simpl. split; [reflexivity|]. split.
    + exists []. rewrite add_statuses_nil, set_gh_gh. reflexivity.
    + intros acc Hacc. unfold mret, M_ret in Hacc. simpl in Hacc. congruence.
  - cbv zeta. rewrite for_each_cons.
    destruct (docs !! name c) as [url|] eqn:Hurl.
    + assert (Hc : is_Some (docs !! name c)) by (rewrite Hurl; eauto).
      erewrite bind_returned; [|rewrite report_case_covered by exact Hc; reflexivity].
      rewrite report_case_covered by exact Hc. cbn [printed after value fold_left].
      match goal with |- context [for_each _ suite (?c', ?n') ?s'] =>
        destruct (IH c' n' s') as (Hp & [l Hl] & Hv) end.
      split; [exact Hp|]. split.
      * eexists. rewrite Hl. simpl. rewrite add_statuses_app. reflexivity.
      * exact Hv.
    + erewrite bind_raised; [|rewrite report_case_missing by exact Hurl; reflexivity].
      rewrite report_case_missing by exact Hurl. simpl.
      split; [reflexivity|]. split.
      * exists []. rewrite add_statuses_nil, set_gh_gh. reflexivity.
      * intros acc Hacc. discriminate.
Qed.

(** *** The comment of the thread *)

Lemma edit_marked_run repo pr comment : ∀ comments pre s,
  thread_of (gh s) repo pr = (pre ++ comments)%list →
  edit_marked repo pr comments (length pre) comment s
  = match replace_marked comment comments with
    | Some l => mkRun [] (set_gh s (set_thread (gh s) repo pr (pre ++ l)%list))
                      (Returned true)
    | None => mkRun [] s (Returned false)
    end.
Proof.
  induction comments as [|body rest IH]; intros pre s Hthread; simpl.
  - reflexivity.
  - destruct (Py.contains marker body) eqn:Hm.
    + unfold mbind, M_bind, edit, with_github. simpl.
      rewrite Hthread.
      replace (length pre) with (length pre + 0)%nat by lia.
      rewrite insert_app_r. reflexivity.
    + specialize (IH (pre ++ [body])%list s).
      rewrite length_app in IH. simpl in IH.
      replace (length pre + 1)%nat with (S (length pre)) in IH by lia.
      rewrite IH by (rewrite <- app_assoc; exact Hthread).
      destruct (replace_marked comment rest) as [l|]; simpl; [|reflexivity].
      rewrite <- app_assoc. reflexivity.
Qed.

Lemma sync_comment_run repo pr comment s :
  (comments ← get_issue_comments repo pr;
   commented ← edit_marked repo pr comments 0 comment;
   if negb commented then create_issue_comment repo pr comment else mret tt) s
  = mkRun [] (set_gh s (set_thread (gh s) repo pr
                          (merge_or_create comment (thread_of (gh s) repo pr))))
          (Returned tt).
Proof.
  unfold get_issue_comments.
  pose proof (edit_marked_run repo pr comment (thread_of (gh s) repo pr) [] s eq_refl)
    as Hedit.
  simpl in Hedit. unfold mbind, M_bind, get_sys, mret, M_ret. simpl.
  rewrite Hedit. unfold merge_or_create.
  destruct (replace_marked comment (thread_of (gh s) repo pr)) as [l|]; simpl.
  - reflexivity.
  - reflexivity.
Qed.

Lemma thread_of_set_thread g repo pr comments :
  thread_of (set_thread g repo pr comments) repo pr = comments.
Proof. unfold thread_of, set_thread; simpl. rewrite lookup_insert_eq. reflexivity. Qed.

(** *** [report_to_github], run to its end *)

Lemma report_to_github_run repo pr sha suite docs s :
  "GH_TOKEN" ∈ dom (environ s) →
  covers docs suite →
  report_to_github (Some repo) pr (Some sha) suite docs s
  = mkRun ["Processing results..."] (published s repo pr sha suite docs)
          (Returned (Some (count_errors suite))).
Proof.
  intros Htoken Hcov. unfold report_to_github.
  erewrite bind_returned by reflexivity. cbn [get_sys printed after value].
  rewrite bool_decide_eq_false_2 by (intros Hn; exact (Hn Htoken)).
  cbn [get_str].
  erewrite bind_returned by reflexivity. cbn [mret M_ret printed after value].
  erewrite bind_returned by reflexivity. cbn [mret M_ret printed after value].
  erewrite bind_returned by reflexivity. cbn [print printed after value].
  erewrite bind_returned
    by (rewrite report_loop_covered by exact Hcov; reflexivity).
  rewrite report_loop_covered by exact Hcov. cbn [printed after value].
  fold (comment_of suite). fold (count_errors suite).
  unfold published.
  destruct (bool_decide (pr ≠ 0) && (0 <? count_errors suite)%nat) eqn:Hcond.
  - erewrite bind_returned by (rewrite sync_comment_run; reflexivity).
    rewrite sync_comment_run. reflexivity.
  - reflexivity.
Qed.

(** Whatever the inputs, [report_to_github] touches nothing but GitHub, and
    a thread only by the edit-or-create step. *)
Lemma report_to_github_frame repo pr sha suite docs s :
  let r := report_to_github repo pr sha suite docs s in
  environ (after r) = environ s
  ∧ procs (after r) = procs s
  ∧ reports (after r) = reports s
  ∧ (threads (gh (after r)) = threads (gh s)
     ∨ ∃ repo', repo = Some repo' ∧ pr ≠ 0 ∧ (0 < count_errors suite)%nat
         ∧ threads (gh (after r))
           = <[(repo', pr) := merge_or_create (comment_of suite)
                                (thread_of (gh s) repo' pr)]> (threads (gh s)))
  ∧ ∀ v, value r = Returned v →
      (v = None ∧ "GH_TOKEN" ∉ dom (environ s))
      ∨ (v = Some (count_errors suite) ∧ "GH_TOKEN" ∈ dom (environ s)).
Proof.
  cbv zeta. unfold report_to_github.
  erewrite bind_returned by reflexivity. cbn [get_sys printed after value].
  case_bool_decide as Htoken.
  { cbn. repeat split; auto. intros v Hret. left. split; [by inversion Hret|exact Htoken]. }
  assert (Htoken' : "GH_TOKEN" ∈ dom (environ s)).
  { destruct (decide ("GH_TOKEN" ∈ dom (environ s))); [assumption|contradiction]. }
  destruct repo as [repo|]; cbn [get_str].
  2:{ cbn. repeat split; auto. intros v Hret. discriminate. }
  erewrite bind_returned by reflexivity. cbn [mret M_ret printed after value].
  destruct sha as [sha|]; cbn [get_str].
  2:{ cbn. repeat split; auto. intros v Hret. discriminate. }
  erewrite bind_returned by reflexivity. cbn [mret M_ret printed after value].
  erewrite bind_returned by reflexivity. cbn [print printed after value].
  match goal with |- context [for_each ?f suite ?acc] =>
    destruct (report_loop_frame repo sha docs suite (fst acc) (snd acc) s)
      as (Hp & [l Hl] & Hv);
    cbn [fst snd] in Hp, Hl, Hv;
    destruct (value (for_each f suite acc s)) as [acc'|e] eqn:Hval
  end.
  - specialize (Hv acc' eq_refl). subst acc'.
    fold (comment_of suite) in *. fold (count_errors suite) in *.
    erewrite bind_returned by exact Hval. rewrite Hl. cbn [printed after value].
    destruct (bool_decide (pr ≠ 0) && (0 <? count_errors suite)%nat) eqn:Hcond.
    + erewrite bind_returned by (rewrite sync_comment_run; reflexivity).
      rewrite sync_comment_run. cbn.
      apply andb_true_iff in Hcond as [Hpr Hcount].
      apply bool_decide_eq_true in Hpr. apply Nat.ltb_lt in Hcount.
      repeat split; auto.
      * right. exists repo. repeat split; auto.
      * intros v Hret. right. split; [by inversion Hret|exact Htoken'].
    + cbn. repeat split; auto.
      intros v Hret. right. split; [by inversion Hret|exact Htoken'].
  - erewrite bind_raised by exact Hval. rewrite Hl. cbn.
    repeat split; auto. intros v Hret. discriminate.
Qed.

(** *** Strings and the marker *)

Lemma prefix_append_r a : ∀ b c,
  String.prefix a b = true → String.prefix a (b +:+ c) = true.
Proof.
  induction a as [|x a IH]; intros b c H.
  - destruct (b +:+ c); reflexivity.
  - destruct b as [|y b]; simpl in H; [discriminate|].
    simpl. destruct (Ascii.ascii_dec x y); [|discriminate].
    apply IH. exact H.
Qed.

Lemma contains_prefix a b : String.prefix a b = true → Py.contains a b = true.
Proof. intros H. destruct b; cbn [Py.contains]; rewrite H; reflexivity. Qed.

Lemma comment_of_prefix suite : String.prefix marker (comment_of suite) = true.
Proof.
  unfold comment_of.
  assert (H0 : String.prefix marker (marker +:+ ":" +:+ Py.NL +:+ Py.NL) = true)
    by reflexivity.
  revert H0. generalize (marker +:+ ":" +:+ Py.NL +:+ Py.NL).
  induction suite as [|c suite IH]; intros comment H0; simpl; [exact H0|].
  apply IH. destruct (reported c); [|exact H0].
  apply prefix_append_r. exact H0.
Qed.

Lemma comment_of_marked suite : Py.contains marker (comment_of suite) = true.
Proof. apply contains_prefix, comment_of_prefix. Qed.

(** *** Edit in place or create *)

Lemma replace_marked_first comment comments :
  replace_marked comment comments
  = (λ i, <[i := comment]> comments) <$> first_marked comments.
Proof.
  induction comments as [|body rest IH]; simpl; [reflexivity|].
  destruct (Py.contains marker body); [reflexivity|].
  rewrite IH. destruct (first_marked rest); reflexivity.
Qed.

Lemma merge_or_create_first comment comments :
  merge_or_create comment comments
  = match first_marked comments with
    | Some i => <[i := comment]> comments
    | None => (comments ++ [comment])%list
    end.
Proof.
  unfold merge_or_create. rewrite replace_marked_first.
  destruct (first_marked comments); reflexivity.
Qed.

Lemma first_marked_none comments :
  first_marked comments = None ↔ count_marked comments = 0%nat.
Proof.
  unfold count_marked. induction comments as [|body rest IH]; simpl; [tauto|].
  destruct (Py.contains marker body); simpl.
  - split; discriminate.
  - destruct (first_marked rest); simpl.
    + split; [discriminate|]. intros H. apply IH in H. discriminate.
    + split; [intros _; apply IH; reflexivity | reflexivity].
Qed.

Lemma count_marked_app l1 l2 :
  count_marked (l1 ++ l2) = (count_marked l1 + count_marked l2)%nat.
Proof. unfold count_marked. rewrite List.filter_app, length_app. reflexivity. Qed.

Lemma count_marked_merge comment comments :
  Py.contains marker comment = true →
  count_marked (merge_or_create comment comments)
  = Nat.max 1 (count_marked comments).
Proof.
  intros Hc. unfold merge_or_create.
  destruct (replace_marked comment comments) as [l|] eqn:Hr; simpl.
  - revert l Hr. induction comments as [|body rest IH]; intros l Hr; simpl in Hr.
    + discriminate.
    + unfold count_marked in *. simpl.
      destruct (Py.contains marker body) eqn:Hb.
      * inversion Hr; subst. simpl. rewrite Hc. simpl. lia.
      * destruct (replace_marked comment rest) as [l'|]; simpl in Hr; [|discriminate].
        inversion Hr; subst. simpl. rewrite Hb. apply IH. reflexivity.
  - rewrite count_marked_app.
    assert (H0 : count_marked comments = 0%nat).
    { apply first_marked_none. rewrite replace_marked_first in Hr.
      destruct (first_marked comments); [discriminate|reflexivity]. }
    rewrite H0. unfold count_marked. simpl. rewrite Hc. reflexivity.
Qed.

(** A second publication meets the comment of the first. *)
Lemma merge_or_create_absorb c1 c2 comments :
  Py.contains marker c1 = true →
  merge_or_create c2 (merge_or_create c1 comments) = merge_or_create c2 comments.
Proof.
  intros Hc1. unfold merge_or_create.
  induction comments as [|body rest IH]; simpl.
  - rewrite Hc1. reflexivity.
  - destruct (Py.contains marker body) eqn:Hb; simpl.
    + rewrite Hc1. reflexivity.
    + destruct (replace_marked c1 rest) as [l1|] eqn:H1; simpl.
      * rewrite Hb. simpl in IH.
        destruct (replace_marked c2 l1) as [l2|] eqn:H2;
          destruct (replace_marked c2 rest) as [l3|] eqn:H3; simpl in *;
          congruence.
      * rewrite Hb. simpl in IH.
        destruct (replace_marked c2 (rest ++ [c1])) as [l2|] eqn:H2;
          destruct (replace_marked c2 rest) as [l3|] eqn:H3; simpl in *;
          congruence.
Qed.

Lemma merge_or_create_length comment comments :
  length (merge_or_create comment comments)
  = (length comments + match first_marked comments with Some _ => 0 | None => 1 end)%nat.
Proof.
  rewrite merge_or_create_first. destruct (first_marked comments).
  - rewrite length_insert. lia.
  - rewrite length_app. reflexivity.
Qed.

(** *** The runner *)

Lemma bind_ext {A B} (m : M A) (k1 k2 : A → M B) s :
  (∀ a s', k1 a s' = k2 a s') → (m ≫= k1) s = (m ≫= k2) s.
Proof.
  intros H. unfold mbind, M_bind. destruct (value (m s)); [|reflexivity].
  rewrite H. reflexivity.
Qed.

Lemma bind_ext_quiet {A B} (m : M A) (k1 k2 : A → M B) s :
  (∀ a s', after (k1 a s') = after (k2 a s') ∧ value (k1 a s') = value (k2 a s')) →
  after ((m ≫= k1) s) = after ((m ≫= k2) s)
  ∧ value ((m ≫= k1) s) = value ((m ≫= k2) s).
Proof.
  intros H. unfold mbind, M_bind. destruct (value (m s)) as [a|e]; simpl.
  - apply H.
  - split; reflexivity.
Qed.

Lemma bind_assoc {A B C} (m : M A) (f : A → M B) (g : B → M C) s :
  ((m ≫= f) ≫= g) s = (m ≫= (λ a, f a ≫= g)) s.
Proof.
  unfold mbind, M_bind. destruct (value (m s)) as [a|e]; simpl; [|reflexivity].
  destruct (value (f a (after (m s)))) as [b|e]; simpl; [|reflexivity].
  rewrite app_assoc. reflexivity.
Qed.

Lemma run_tests_include w args :
  Args.module args ≠ [] →
  ∀ subclasses suite docs s,
    run_tests w args subclasses suite docs s
    = run_all w (default "" (Args.commits args))
              (filter (λ t, _name t ∈ Args.module args) subclasses) suite docs s.
Proof.
  intros Hinc. induction subclasses as [|test rest IH]; intros suite docs s.
  - reflexivity.
  - cbn [run_tests]. rewrite bool_decide_eq_true_2 by exact Hinc.
    rewrite filter_cons. case_bool_decide as Hin.
    + rewrite decide_True by exact Hin. cbn [run_all].
      apply bind_ext. intros case s'. apply IH.
    + rewrite decide_False by exact Hin. apply IH.
Qed.

Lemma run_tests_exclude w args :
  Args.module args = [] →
  ∀ subclasses suite docs s,
    let r := run_tests w args subclasses suite docs s in
    let r' := run_all w (default "" (Args.commits args))
                (filter (λ t, _name t ∉ Args.exclude_module args) subclasses)
                suite docs s in
    after r = after r' ∧ value r = value r'.
Proof.
  intros Hexc. induction subclasses as [|test rest IH]; intros suite docs s.
  - split; reflexivity.
  - cbv zeta. cbn [run_tests].
    rewrite bool_decide_eq_false_2 by (intros Hne; exact (Hne Hexc)).
    rewrite filter_cons. case_bool_decide as Hin.
    + rewrite decide_False by (intros Hn; exact (Hn Hin)).
      erewrite bind_returned by reflexivity. cbn [print printed after value].
      apply IH.
    + rewrite decide_True by exact Hin. cbn [run_all].
      apply bind_ext_quiet. intros case s'. apply IH.
Qed.

Lemma run_tests_app w args pre : ∀ post suite docs s,
  run_tests w args (pre ++ post) suite docs s
  = (acc ← run_tests w args pre suite docs;
     run_tests w args post acc.1 acc.2) s.
Proof.
  induction pre as [|test rest IH]; intros post suite docs s.
  - simpl. unfold mbind, M_bind, mret, M_ret. simpl.
    rewrite run_eta. reflexivity.
  - rewrite <- app_comm_cons. cbn [run_tests].
    destruct (bool_decide (Args.module args ≠ [])).
    + destruct (bool_decide (_name test ∈ Args.module args)).
      * rewrite bind_assoc. apply bind_ext. intros case s'. apply IH.
      * apply IH.
    + destruct (bool_decide (_name test ∈ Args.exclude_module args)).
      * rewrite bind_assoc. apply bind_ext. intros [] s'. apply IH.
      * rewrite bind_assoc. apply bind_ext. intros case s'. apply IH.
Qed.

(** A check that the filters let through is run when its turn comes. *)
Lemma run_tests_selected w args test rest suite docs s :
  selected args [test] = [test] →
  run_tests w args (test :: rest) suite docs s
  = (case ← run test w (default "" (Args.commits args));
     run_tests w args rest (suite ++ [case])%list (<[name case := _doc test]> docs)) s.
Proof.
  unfold selected. intros Hsel. cbn [run_tests].
  destruct (bool_decide (Args.module args ≠ [])).
  - rewrite filter_cons in Hsel.
    destruct (decide (_name test ∈ Args.module args)) as [Hin|Hout]; [|discriminate].
    rewrite bool_decide_eq_true_2 by exact Hin. reflexivity.
  - rewrite filter_cons in Hsel.
    destruct (decide (_name test ∉ Args.exclude_module args)) as [Hin|Hout];
      [|discriminate].
    rewrite bool_decide_eq_false_2 by exact Hin. reflexivity.
Qed.

Lemma covers_insert docs suite k v : covers docs suite → covers (<[k := v]> docs) suite.
Proof.
  unfold covers. intros H. eapply Forall_impl; [exact H|]. cbn beta. intros c [u Hu].
  destruct (decide (k = name c)) as [->|Hne].
  - rewrite lookup_insert_eq. eauto.
  - rewrite lookup_insert_ne by exact Hne. eauto.
Qed.

(** [docs] has an entry for every case that the loop adds to the suite. *)
Lemma run_tests_covers w args subclasses : ∀ suite docs s suite' docs',
  covers docs suite →
  value (run_tests w args subclasses suite docs s) = Returned (suite', docs') →
  covers docs' suite'.
Proof.
  assert (Hstep : ∀ test rest,
    (∀ suite docs s suite' docs', covers docs suite →
       value (run_tests w args rest suite docs s) = Returned (suite', docs') →
       covers docs' suite') →
    ∀ suite docs s suite' docs', covers docs suite →
      value ((case ← run test w (default "" (Args.commits args));
              run_tests w args rest (suite ++ [case])%list
                        (<[name case := _doc test]> docs)) s)
      = Returned (suite', docs') →
      covers docs' suite').
  { intros test rest IH suite docs s suite' docs' Hcov Hval.
    unfold mbind, M_bind in Hval.
    destruct (value (run test w (default "" (Args.commits args)) s)) as [case|e];
      simpl in Hval; [|discriminate].
    eapply IH; [|exact Hval].
    apply Forall_app. split.
    - apply covers_insert. exact Hcov.
    - constructor; [|constructor]. rewrite lookup_insert_eq. eauto. }
  induction subclasses as [|test rest IH]; intros suite docs s suite' docs' Hcov Hval.
  - simpl in Hval. inversion Hval; subst. exact Hcov.
  - cbn [run_tests] in Hval.
    destruct (bool_decide (Args.module args ≠ [])).
    + destruct (bool_decide (_name test ∈ Args.module args)).
      * eapply Hstep; eauto.
      * eapply IH; eauto.
    + destruct (bool_decide (_name test ∈ Args.exclude_module args)).
      * unfold mbind, M_bind in Hval. simpl in Hval. eapply IH; eauto.
      * eapply Hstep; eauto.
Qed.

(** *** The end of [main] *)

Lemma conclude_local w args suite docs s :
  write_fault w (Args.output args) = None →
  publishing args s = false →
  conclude w args suite docs s
  = mkRun (errors_found (count_errors suite))
          (add_report s (Args.output args) suite)
          (Raised (SystemExit (Some (count_errors suite)))).
Proof.
  intros Hwrite Hpub. unfold conclude, xml_write. rewrite Hwrite.
  erewrite bind_returned by reflexivity. cbn [printed after value].
  erewrite bind_returned by reflexivity. cbn [get_sys printed after value environ].
  unfold publishing in Hpub. rewrite Hpub.
  erewrite bind_returned by reflexivity. cbn [mret M_ret printed after value].
  fold (add_report s (Args.output args) suite).
  destruct (count_errors suite) as [|n]; reflexivity.
Qed.

Lemma conclude_published w args suite docs s repo sha :
  write_fault w (Args.output args) = None →
  publishing args s = true →
  Args.repo args = Some repo →
  Args.sha args = Some sha →
  covers docs suite →
  conclude w args suite docs s
  = mkRun ("Processing results..." :: errors_found (count_errors suite))
          (published (add_report s (Args.output args) suite) repo
                     (Args.pull_request args) sha suite docs)
          (Raised (SystemExit (Some (count_errors suite)))).
Proof.
  intros Hwrite Hpub Hrepo Hsha Hcov. unfold conclude, xml_write. rewrite Hwrite.
  erewrite bind_returned by reflexivity. cbn [printed after value].
  erewrite bind_returned by reflexivity. cbn [get_sys printed after value environ].
  unfold publishing in Hpub. rewrite Hpub.
  fold (add_report s (Args.output args) suite).
  assert (Htoken : "GH_TOKEN" ∈ dom (environ (add_report s (Args.output args) suite))).
  { apply andb_true_iff in Hpub as [_ Ht]. apply bool_decide_eq_true in Ht. exact Ht. }
  rewrite Hrepo, Hsha.
  erewrite bind_returned
    by (rewrite report_to_github_run by assumption; reflexivity).
  rewrite report_to_github_run by assumption. cbn [printed after value].
  destruct (count_errors suite) as [|n]; reflexivity.
Qed.

Lemma main_runs_checks subclasses w args s :
  runs_checks args →
  main subclasses w args s
  = (acc ← run_tests w args subclasses [] ∅; conclude w args acc.1 acc.2) s.
Proof.
  intros (Hlist & Hstatus & Hcommits). unfold main.
  rewrite Hlist, Hstatus, Hcommits. cbn [negb].
  apply bind_ext. intros [suite docs] s'. reflexivity.
Qed.

Lemma suite4_wf : Forall wf_case Ex.suite4.
Proof.
  unfold Ex.suite4. repeat apply Forall_cons_2; try apply Forall_nil_2;
    intros r Hr; inversion Hr; subst; split; discriminate || reflexivity.
Qed.

Lemma clean_suite_wf : Forall wf_case Ex.clean_suite.
Proof.
  unfold Ex.clean_suite. repeat apply Forall_cons_2; try apply Forall_nil_2;
    intros r Hr; inversion Hr; subst; split; discriminate || reflexivity.
Qed.

Lemma docs4_covers : covers Ex.docs4 Ex.suite4.
Proof.
  unfold covers, Ex.suite4. repeat apply Forall_cons_2; try apply Forall_nil_2;
    eexists; vm_compute; reflexivity.
Qed.

Lemma with_token_has_token : "GH_TOKEN" ∈ dom (environ Ex.with_token).
Proof. apply elem_of_dom. eexists. vm_compute. reflexivity. Qed.

Lemma published_environ s repo pr sha suite docs :
  environ (published s repo pr sha suite docs) = environ s.
Proof. unfold published. destruct (_ && _); reflexivity. Qed.

Lemma published_thread s repo pr sha suite docs :
  pr ≠ 0 → (0 < count_errors suite)%nat →
  thread_of (gh (published s repo pr sha suite docs)) repo pr
  = merge_or_create (comment_of suite) (thread_of (gh s) repo pr).
Proof.
  intros Hpr Hcount. unfold published.
  rewrite bool_decide_eq_true_2 by exact Hpr.
  apply Nat.ltb_lt in Hcount. rewrite Hcount. cbn [andb gh set_gh].
  rewrite thread_of_set_thread. reflexivity.
Qed.

Lemma published_statuses s repo pr sha suite docs :
  statuses (gh (published s repo pr sha suite docs))
  = (statuses (gh s) ++ map (status_entry repo sha docs) suite)%list.
Proof. unfold published. destruct (_ && _); reflexivity. Qed.

Lemma merge_or_create_elem comment comments body :
  body ∈ merge_or_create comment comments → body ∈ comments ∨ body = comment.
Proof.
  rewrite merge_or_create_first. destruct (first_marked comments) as [i|].
  - intros Hin. apply list_elem_of_lookup in Hin as [j Hj].
    destruct (decide (i = j)) as [->|Hne].
    + destruct (decide (j < length comments)%nat) as [Hlt|Hge].
      * rewrite list_lookup_insert_eq in Hj by exact Hlt. right. congruence.
      * rewrite list_insert_ge in Hj by lia. left.
        apply list_elem_of_lookup. eauto.
    + rewrite list_lookup_insert_ne in Hj by exact Hne. left.
      apply list_elem_of_lookup. eauto.
  - intros Hin. apply elem_of_app in Hin as [Hin|Hin]; [left; exact Hin|].
    right. apply list_elem_of_singleton in Hin. exact Hin.
Qed.

Lemma edit_marked_finds repo pr comment body post : ∀ pre i s,
  Py.contains marker body = true →
  value (edit_marked repo pr (pre ++ body :: post) i comment s) = Returned true.
Proof.
  induction pre as [|b pre IH]; intros i s Hbody; simpl.
  - rewrite Hbody. reflexivity.
  - destruct (Py.contains marker b); [reflexivity|]. apply IH. exact Hbody.
Qed.

Lemma run_tests_set_github w args b subclasses : ∀ suite docs s,
  run_tests w (set_github args b) subclasses suite docs s
  = run_tests w args subclasses suite docs s.
Proof.
  induction subclasses as [|test rest IH]; intros suite docs s; [reflexivity|].
  cbn [run_tests set_github Args.module Args.exclude_module Args.commits].
  destruct (bool_decide (Args.module args ≠ [])).
  - destruct (bool_decide (_name test ∈ Args.module args)); [|apply IH].
    apply bind_ext. intros case s'. apply IH.
  - destruct (bool_decide (_name test ∈ Args.exclude_module args)).
    + apply bind_ext. intros [] s'. apply IH.
    + apply bind_ext. intros case s'. apply IH.
Qed.

Lemma exit_status_bind_returned {A B} (m : M A) (k : A → M B) s a :
  value (m s) = Returned a →
  exit_status ((m ≫= k) s) = exit_status (k a (after (m s))).
Proof. intros H. rewrite (bind_returned m k s a H). reflexivity. Qed.

Lemma exit_status_bind_raised {A B} (m : M A) (k : A → M B) s e :
  value (m s) = Raised e →
  exit_status ((m ≫= k) s) = exit_status (m s).
Proof. intros H. rewrite (bind_raised m k s e H). unfold exit_status. cbn. rewrite H. reflexivity. Qed.

Lemma conclude_write_fault w args suite docs s e :
  write_fault w (Args.output args) = Some e →
  conclude w args suite docs s = mkRun [] s (Raised e).
Proof. intros H. unfold conclude, xml_write. rewrite H. reflexivity. Qed.

(** *** The cases that the checks build *)

Lemma bind_inv {A B} (m : M A) (k : A → M B) s b :
  value ((m ≫= k) s) = Returned b →
  ∃ a, value (m s) = Returned a ∧ value (k a (after (m s))) = Returned b.
Proof.
  unfold mbind, M_bind. destruct (value (m s)) as [a|e]; simpl; [eauto|discriminate].
Qed.

Lemma ret_inv {A} (a b : A) s : value ((mret a : M A) s) = Returned b → a = b.
Proof. unfold mret, M_ret. simpl. congruence. Qed.

Lemma prepare_run test_name s :
  prepare test_name s
  = mkRun ["Running " +:+ test_name +:+ " tests..."] s
          (Returned (mkCase test_name (Some "Guidelines") None None)).
Proof. reflexivity. Qed.

Lemma prepare_inv test_name s case :
  value (prepare test_name s) = Returned case →
  case = mkCase test_name (Some "Guidelines") None None.
Proof. rewrite prepare_run. simpl. congruence. Qed.

Lemma set_result_text_inv c t s c' :
  value (set_result_text c t s) = Returned c' →
  ∃ r, result c = Some r ∧ c' = set_result c (set_text r t).
Proof.
  unfold set_result_text. destruct (result c) as [r|]; [|discriminate].
  intros H. apply ret_inv in H. eauto.
Qed.

Lemma try_inv {A} (m : M A) (handler : Z → string → M A) s a :
  value (try_CalledProcessError m handler s) = Returned a →
  value (m s) = Returned a
  ∨ ∃ rc out, value (handler rc out (after (m s))) = Returned a.
Proof.
  unfold try_CalledProcessError. destruct (value (m s)) as [a'|e] eqn:Hm.
  - rewrite Hm. auto.
  - destruct e; try (rewrite Hm; discriminate). simpl. eauto.
Qed.

Ltac wf_built :=
  unfold built_by; split;
  [ intros ? Hres; try discriminate Hres; inversion Hres; subst;
    first [ apply wf_new_skipped
          | apply wf_set_text, wf_new_failure
          | apply wf_set_text, wf_new_error; discriminate
          | apply wf_new_error; discriminate ]
  | repeat split; reflexivity ].

Lemma on_error_inv case ex_output s case' :
  value (CheckPatch.on_error case ex_output s) = Returned case' →
  case' = case
  ∨ case' = set_result case (set_text (Failure "Checkpatch issues" "failure") ex_output).
Proof.
  unfold CheckPatch.on_error, decode_utf8. intros H.
  destruct (Py.valid_utf8 ex_output); [|discriminate].
  apply bind_inv in H as (d & Hd & H). apply ret_inv in Hd. subst d.
  destruct (Py.re_search_errors ex_output).
  - apply bind_inv in H as (t & Ht & H). apply ret_inv in Ht. subst t.
    apply set_result_text_inv in H as (r & Hr & H). simpl in Hr. inversion Hr; subst.
    right. reflexivity.
  - apply ret_inv in H. left. congruence.
Qed.

Lemma checkpatch_builds w commit_range s case :
  value (CheckPatch.run w commit_range s) = Returned case →
  built_by CheckPatch.class case.
Proof.
  unfold CheckPatch.run. intros H.
  apply bind_inv in H as (c & Hc & H). apply prepare_inv in Hc. subst c.
  apply bind_inv in H as (d & _ & H).
  apply try_inv in H as [H | (rc & out & H)].
  - apply bind_inv in H as (o & _ & H). apply ret_inv in H. subst case.
    destruct (negb _); wf_built.
  - apply on_error_inv in H as [-> | ->]; destruct (negb _); wf_built.
Qed.

Lemma kconfig_builds w commit_range s case :
  value (KconfigCheck.run w commit_range s) = Returned case →
  built_by KconfigCheck.class case.
Proof.
  unfold KconfigCheck.run. intros H.
  apply bind_inv in H as (c & Hc & H). apply prepare_inv in Hc. subst c.
  apply bind_inv in H as (s' & _ & H).
  destruct (environ s' !! "ZEPHYR_BASE") as [repo_path|].
  2:{ apply ret_inv in H. subst case. wf_built. }
  destruct (negb _).
  { apply ret_inv in H. subst case. wf_built. }
  do 7 (apply bind_inv in H as (? & _ & H)).
  case_bool_decide.
  - apply set_result_text_inv in H as (r & Hr & H). simpl in Hr. inversion Hr; subst.
    wf_built.
  - apply ret_inv in H. subst case. wf_built.
Qed.

Lemma documentation_builds w commit_range s case :
  value (Documentation.run w commit_range s) = Returned case →
  built_by Documentation.class case.
Proof.
  unfold Documentation.run. intros H.
  apply bind_inv in H as (c & Hc & H). apply prepare_inv in Hc. subst c.
  destruct (_ && _).
  - do 2 (apply bind_inv in H as (? & _ & H)).
    apply set_result_text_inv in H as (r & Hr & H). simpl in Hr. inversion Hr; subst.
    wf_built.
  - apply ret_inv in H. subst case. wf_built.
Qed.

Lemma gitlint_builds w commit_range s case :
  value (GitLint.run w commit_range s) = Returned case →
  built_by GitLint.class case.
Proof.
  unfold GitLint.run. intros H.
  apply bind_inv in H as (c & Hc & H). apply prepare_inv in Hc. subst c.
  apply bind_inv in H as (proc & _ & H).
  destruct (GitLint.ne_str _ _).
  - apply bind_inv in H as (? & _ & H).
    apply set_result_text_inv in H as (r & Hr & H). simpl in Hr. inversion Hr; subst.
    wf_built.
  - apply ret_inv in H. subst case. wf_built.
Qed.

(** The suite of a run holds only cases that the checks built. *)
Lemma run_tests_built w args (P : MyCase → Prop) subclasses :
  (∀ test s case, test ∈ subclasses →
     value (run test w (default "" (Args.commits args)) s) = Returned case → P case) →
  ∀ suite docs s suite' docs',
    Forall P suite →
    value (run_tests w args subclasses suite docs s) = Returned (suite', docs') →
    Forall P suite'.
Proof.
  induction subclasses as [|test rest IH]; intros Hbuilt suite docs s suite' docs' Hsuite Hval.
  - simpl in Hval. inversion Hval; subst. exact Hsuite.
  - assert (Hrest : ∀ test' s' case, test' ∈ rest →
              value (run test' w (default "" (Args.commits args)) s') = Returned case →
              P case).
    { intros test' s' case Hin. apply Hbuilt. apply list_elem_of_further. exact Hin. }
    assert (Hstep : ∀ suite docs s,
      Forall P suite →
      value ((case ← run test w (default "" (Args.commits args));
              run_tests w args rest (suite ++ [case])%list
                        (<[name case := _doc test]> docs)) s)
      = Returned (suite', docs') → Forall P suite').
    { intros suite0 docs0 s0 Hsuite0 Hval0. unfold mbind, M_bind in Hval0.
      destruct (value (run test w (default "" (Args.commits args)) s0)) as [case|e] eqn:Hrun;
        simpl in Hval0; [|discriminate].
      eapply (IH Hrest); [|exact Hval0].
      apply Forall_app. split; [exact Hsuite0|].
      apply Forall_cons_2; [|apply Forall_nil_2].
      eapply Hbuilt; [apply list_elem_of_here|exact Hrun]. }
    cbn [run_tests] in Hval.
    destruct (bool_decide (Args.module args ≠ [])).
    + destruct (bool_decide (_name test ∈ Args.module args)).
      * eapply Hstep; eauto.
      * eapply (IH Hrest); eauto.
    + destruct (bool_decide (_name test ∈ Args.exclude_module args)).
      * unfold mbind, M_bind in Hval. simpl in Hval. eapply (IH Hrest); eauto.
      * eapply Hstep; eauto.
Qed.

Lemma checks4_suite_wf w args s suite docs :
  value (run_tests w args Ex.checks4 [] ∅ s) = Returned (suite, docs) →
  Forall wf_case suite.
Proof.
  apply (run_tests_built w args wf_case Ex.checks4); [|apply Forall_nil_2].
  intros test s' case Hin Hrun. unfold Ex.checks4 in Hin.
  repeat (apply elem_of_cons in Hin as [->|Hin]).
  - exact (proj1 (checkpatch_builds w (default "" (Args.commits args)) s' case Hrun)).
  - exact (proj1 (kconfig_builds w (default "" (Args.commits args)) s' case Hrun)).
  - exact (proj1 (documentation_builds w (default "" (Args.commits args)) s' case Hrun)).
  - exact (proj1 (gitlint_builds w (default "" (Args.commits args)) s' case Hrun)).
  - apply elem_of_nil in Hin. contradiction.
Qed.

(** *** The claims *)

(** C1. For every suite, the exit code of the process is the number of
    results whose status is Failed or Error; Skipped and Passed results add
    nothing.  The suite is any list of cases whose results pair the
    [skipped] element with the type ["skipped"], as every result built by
    the checks does; the exit code is read where [main] computes it itself,
    that is when it does not publish.  The last part reads the same off a
    whole run of [main]. *)
Theorem exit_code_counts_failed_and_error w args suite docs s :
  Forall wf_case suite →
  write_fault w (Args.output args) = None →
  publishing args s = false →
  count_errors suite = length (List.filter failed_or_error suite)
  ∧ value (conclude w args suite docs s)
    = Raised (SystemExit (Some (length (List.filter failed_or_error suite))))
  ∧ exit_status (conclude w args suite docs s)
    = length (List.filter failed_or_error suite)
  ∧ ∀ subclasses s0,
      runs_checks args →
      value (run_tests w args subclasses [] ∅ s0) = Returned (suite, docs) →
      after (run_tests w args subclasses [] ∅ s0) = s →
      exit_status (main subclasses w args s0)
      = length (List.filter failed_or_error suite).
Proof.
  intros Hwf Hwrite Hpub.
  assert (Hcount : count_errors suite = length (List.filter failed_or_error suite)).
  { rewrite count_errors_filter, filter_reported_status by exact Hwf. reflexivity. }
  assert (Hexit : exit_status (conclude w args suite docs s)
                  = length (List.filter failed_or_error suite)).
  { rewrite conclude_local by assumption. unfold exit_status. cbn [value default].
    exact Hcount. }
  split; [exact Hcount|]. split; [|split; [exact Hexit|]].
  - rewrite conclude_local by assumption. cbn [value]. rewrite Hcount. reflexivity.
  - intros subclasses s0 Hruns Hrun Hafter.
    rewrite main_runs_checks by exact Hruns.
    rewrite (exit_status_bind_returned _ _ _ _ Hrun). cbn [fst snd].
    rewrite Hafter. exact Hexit.
Qed.

Lemma exit_code_counts_failed_and_error_witness :
  Forall wf_case Ex.suite4
  ∧ write_fault Ex.quiet (Args.output Ex.local_args) = None
  ∧ publishing Ex.local_args Ex.no_token = false
  ∧ exit_status (conclude Ex.quiet Ex.local_args Ex.suite4 Ex.docs4 Ex.no_token)
    = 2%nat.
Proof.
  split; [exact suite4_wf|]. split; [reflexivity|]. split; [reflexivity|].
  exact (proj1 (proj2 (proj2 (exit_code_counts_failed_and_error
                                Ex.quiet Ex.local_args Ex.suite4 Ex.docs4 Ex.no_token
                                suite4_wf eq_refl eq_refl)))).
Defined.

(** C2, as stated, fails: on a thread where a reviewer quoted the phrase
    above the comment of an earlier run, two publications of the same
    failing suite leave two comments that carry the phrase (the quote was
    overwritten, the comment of the earlier run is still there). *)
Lemma publish_twice_leaves_two_marked_comments :
  thread_of
    (gh (after (report_to_github (Some "zephyr/ci") 7 (Some "abc123") Ex.suite4 Ex.docs4
                  (after (report_to_github (Some "zephyr/ci") 7 (Some "abc123")
                            Ex.suite4 Ex.docs4 Ex.quoted)))))
    "zephyr/ci" 7
  = [comment_of Ex.suite4; marker +:+ ": an earlier run"]
  ∧ count_marked [comment_of Ex.suite4; marker +:+ ": an earlier run"] = 2%nat.
Proof. vm_compute. split; reflexivity. Qed.

(** C2, amended.  With a token, a pull request and at least one reported
    result: the first comment of the thread that carries the marker is
    edited in place, whoever wrote it, and if there is none exactly one
    comment is appended; a second call with the same suite leaves the
    thread as the first call left it.  The comments that carry the marker
    are then as many as before, or one if there was none: exactly one when
    the thread held at most one before. *)
Theorem publish_twice_one_comment repo pr sha suite docs s :
  "GH_TOKEN" ∈ dom (environ s) →
  covers docs suite →
  pr ≠ 0 →
  (0 < count_errors suite)%nat →
  let t := thread_of (gh s) repo pr in
  let r1 := report_to_github (Some repo) pr (Some sha) suite docs s in
  let t1 := thread_of (gh (after r1)) repo pr in
  let r2 := report_to_github (Some repo) pr (Some sha) suite docs (after r1) in
  let t2 := thread_of (gh (after r2)) repo pr in
  t1 = match first_marked t with
       | Some i => <[i := comment_of suite]> t
       | None => (t ++ [comment_of suite])%list
       end
  ∧ t2 = t1
  ∧ count_marked t2 = Nat.max 1 (count_marked t)
  ∧ length t2 = (length t + match first_marked t with Some _ => 0 | None => 1 end)%nat
  ∧ (count_marked t2 = 1%nat ↔ (count_marked t ≤ 1)%nat).
Proof.
  intros Htoken Hcov Hpr Hcount. cbv zeta.
  rewrite report_to_github_run by assumption. cbn [after].
  rewrite report_to_github_run
    by (try rewrite published_environ; assumption). cbn [after].
  rewrite !published_thread by assumption.
  rewrite merge_or_create_absorb by apply comment_of_marked.
  split; [apply merge_or_create_first|]. split; [reflexivity|].
  assert (Hmax : count_marked (merge_or_create (comment_of suite) (thread_of (gh s) repo pr))
                 = Nat.max 1 (count_marked (thread_of (gh s) repo pr)))
    by apply count_marked_merge, comment_of_marked.
  split; [exact Hmax|]. split.
  - apply merge_or_create_length.
  - rewrite Hmax. lia.
Qed.

Lemma publish_twice_one_comment_witness :
  "GH_TOKEN" ∈ dom (environ Ex.with_token)
  ∧ covers Ex.docs4 Ex.suite4
  ∧ (7 ≠ 0)
  ∧ (0 < count_errors Ex.suite4)%nat
  ∧ thread_of
      (gh (after (report_to_github (Some "zephyr/ci") 7 (Some "abc123") Ex.suite4 Ex.docs4
                    (after (report_to_github (Some "zephyr/ci") 7 (Some "abc123")
                              Ex.suite4 Ex.docs4 Ex.with_token)))))
      "zephyr/ci" 7
    = [comment_of Ex.suite4].
Proof.
  assert (H7 : 7 ≠ 0) by discriminate.
  assert (Hcount : (0 < count_errors Ex.suite4)%nat) by (vm_compute; lia).
  split; [exact with_token_has_token|]. split; [exact docs4_covers|].
  split; [exact H7|]. split; [exact Hcount|].
  pose proof (publish_twice_one_comment "zephyr/ci" 7 "abc123" Ex.suite4 Ex.docs4
                Ex.with_token with_token_has_token docs4_covers H7 Hcount)
    as (H1 & H2 & _).
  cbv zeta in H1, H2. rewrite H2, H1. reflexivity.
Defined.

(** C3. When no result of the suite is Failed or Error, publishing neither
    creates nor edits a comment: every thread is as it was, whatever it
    held from earlier runs. *)
Theorem no_comment_without_issues repo pr sha suite docs s :
  Forall wf_case suite →
  length (List.filter failed_or_error suite) = 0%nat →
  threads (gh (after (report_to_github repo pr sha suite docs s))) = threads (gh s).
Proof.
  intros Hwf Hzero.
  assert (Hcount : count_errors suite = 0%nat).
  { rewrite count_errors_filter, filter_reported_status by exact Hwf. exact Hzero. }
  destruct (report_to_github_frame repo pr sha suite docs s)
    as (_ & _ & _ & [Hsame | (repo' & _ & _ & Hpos & _)] & _).
  - exact Hsame.
  - lia.
Qed.

Lemma no_comment_without_issues_witness :
  Forall wf_case Ex.clean_suite
  ∧ length (List.filter failed_or_error Ex.clean_suite) = 0%nat
  ∧ threads (gh (after (report_to_github (Some "zephyr/ci") 7 (Some "abc123")
                          Ex.clean_suite Ex.docs4 Ex.stale)))
    = threads (gh Ex.stale).
Proof.
  split; [exact clean_suite_wf|]. split; [reflexivity|].
  exact (no_comment_without_issues (Some "zephyr/ci") 7 (Some "abc123")
           Ex.clean_suite Ex.docs4 Ex.stale clean_suite_wf eq_refl).
Defined.

(** C5, as stated, fails: a Skipped result gets the state [success]. *)
Lemma skipped_result_gets_success :
  status_of Ex.kconfig_skipped = SkippedStatus
  ∧ map st_state
      (statuses (gh (after (report_to_github (Some "zephyr/ci") 7 (Some "abc123")
                              [Ex.kconfig_skipped] Ex.docs4 Ex.with_token))))
    = ["success"].
Proof. vm_compute. split; reflexivity. Qed.

(** C5, amended.  During publishing one commit status is created for every
    result of the suite, in order: state [failure] for the results whose
    status is Failed or Error, state [success] for every other result, that
    is for Passed and for Skipped. *)
Theorem status_failure_iff_failed_or_error repo pr sha suite docs s :
  "GH_TOKEN" ∈ dom (environ s) →
  covers docs suite →
  Forall wf_case suite →
  statuses (gh (after (report_to_github (Some repo) pr (Some sha) suite docs s)))
  = (statuses (gh s)
     ++ map (λ c, if failed_or_error c
                  then mkStatus repo sha "failure" (default "" (docs !! name c))
                                "Verification failed" (name c)
                  else mkStatus repo sha "success" (default "" (docs !! name c))
                                "Verifications passed" (name c))
            suite)%list.
Proof.
  intros Htoken Hcov Hwf.
  rewrite report_to_github_run by assumption. cbn [after].
  rewrite published_statuses. f_equal.
  apply map_ext_Forall. eapply Forall_impl; [exact Hwf|]. cbn beta.
  intros c Hc. unfold status_entry.
  rewrite (reported_failed_or_error c Hc). reflexivity.
Qed.

Lemma status_failure_iff_failed_or_error_witness :
  "GH_TOKEN" ∈ dom (environ Ex.with_token)
  ∧ covers Ex.docs4 Ex.suite4
  ∧ Forall wf_case Ex.suite4
  ∧ map st_state
      (statuses (gh (after (report_to_github (Some "zephyr/ci") 7 (Some "abc123")
                              Ex.suite4 Ex.docs4 Ex.with_token))))
    = ["success"; "success"; "failure"; "failure"].
Proof.
  split; [exact with_token_has_token|]. split; [exact docs4_covers|].
  split; [exact suite4_wf|].
  rewrite (status_failure_iff_failed_or_error "zephyr/ci" 7 "abc123" Ex.suite4 Ex.docs4
             Ex.with_token with_token_has_token docs4_covers suite4_wf).
  reflexivity.
Defined.

(** C6. The count that [report_to_github] returns is the count that [main]
    computes itself on the same suite, so the exit status of the process is
    the same with and without [--github], for a command line that names the
    repository and the commit to publish to. *)
Theorem publish_count_is_exit_count subclasses w args s repo sha :
  Args.repo args = Some repo →
  Args.sha args = Some sha →
  (∀ suite docs s',
     "GH_TOKEN" ∈ dom (environ s') → covers docs suite →
     value (report_to_github (Args.repo args) (Args.pull_request args) (Args.sha args)
                             suite docs s')
     = Returned (Some (count_errors suite)))
  ∧ exit_status (main subclasses w (set_github args true) s)
    = exit_status (main subclasses w (set_github args false) s).
Proof.
  intros Hrepo Hsha. split.
  - intros suite docs s' Htoken Hcov. rewrite Hrepo, Hsha.
    rewrite report_to_github_run by assumption. reflexivity.
  - unfold main. cbn [set_github Args.list Args.status Args.sha Args.repo Args.commits].
    destruct (Args.list args); [reflexivity|].
    destruct (Args.status args && bool_decide (is_Some (Args.sha args))
              && truthy (Args.repo args)); [reflexivity|].
    destruct (negb (truthy (Args.commits args))); [reflexivity|].
    assert (Hsame : ∀ b (k : list MyCase * gmap string string → M unit),
      (run_tests w (set_github args b) subclasses [] ∅ ≫= k) s
      = (run_tests w args subclasses [] ∅ ≫= k) s).
    { intros b k. unfold mbind, M_bind. rewrite run_tests_set_github. reflexivity. }
    rewrite !Hsame.
    destruct (value (run_tests w args subclasses [] ∅ s)) as [[suite docs]|e] eqn:Hrun.
    2:{ rewrite !(exit_status_bind_raised _ _ _ _ Hrun). reflexivity. }
    rewrite !(exit_status_bind_returned _ _ _ _ Hrun).
    pose proof (run_tests_covers w args subclasses [] ∅ s suite docs
                  (Forall_nil_2 _) Hrun) as Hcov.
    set (s1 := after (run_tests w args subclasses [] ∅ s)).
    destruct (write_fault w (Args.output args)) as [e|] eqn:Hwrite.
    { rewrite !(conclude_write_fault _ _ _ _ _ e) by exact Hwrite. reflexivity. }
    rewrite (conclude_local w (set_github args false)) by (exact Hwrite || reflexivity).
    destruct (bool_decide ("GH_TOKEN" ∈ dom (environ s1))) eqn:Htoken.
    + rewrite (conclude_published w (set_github args true) suite docs s1 repo sha);
        [reflexivity|exact Hwrite| |exact Hrepo|exact Hsha|exact Hcov].
      unfold publishing. cbn [set_github Args.github]. rewrite Htoken. reflexivity.
    + rewrite (conclude_local w (set_github args true)); [reflexivity|exact Hwrite|].
      unfold publishing. cbn [set_github Args.github]. rewrite Htoken. reflexivity.
Qed.

Lemma publish_count_is_exit_count_witness :
  Args.repo Ex.github_args = Some "zephyr/ci"
  ∧ Args.sha Ex.github_args = Some "abc123"
  ∧ exit_status (main Ex.checks4 Ex.quiet (set_github Ex.github_args true) Ex.with_token)
    = exit_status (main Ex.checks4 Ex.quiet (set_github Ex.github_args false) Ex.with_token).
Proof.
  split; [reflexivity|]. split; [reflexivity|].
  exact (proj2 (publish_count_is_exit_count Ex.checks4 Ex.quiet Ex.github_args
                  Ex.with_token "zephyr/ci" "abc123" eq_refl eq_refl)).
Defined.

(** C9. Every comment body that publishing writes begins with the phrase
    "Found the following issues, please fix and resubmit", which is the
    marker that the search over the comments of the thread looks for: after
    a call, a comment of any thread either was there before or begins with
    the marker, and the search finds a comment built this way wherever it
    stands in the thread. *)
Theorem comment_begins_with_marker repo pr sha suite docs s :
  String.prefix marker (comment_of suite) = true
  ∧ (∀ key body,
       body ∈ default [] (threads (gh (after (report_to_github repo pr sha suite docs s)))
                           !! key) →
       body ∈ default [] (threads (gh s) !! key) ∨ String.prefix marker body = true)
  ∧ (∀ repo' pr' before later i comment s',
       value (edit_marked repo' pr' (before ++ comment_of suite :: later) i comment s')
       = Returned true).
Proof.
  split; [apply comment_of_prefix|]. split.
  - intros key body Hin.
    destruct (report_to_github_frame repo pr sha suite docs s)
      as (_ & _ & _ & [Hsame | (repo' & _ & _ & _ & Hthreads)] & _).
    + left. rewrite <- Hsame. exact Hin.
    + rewrite Hthreads in Hin.
      destruct (decide ((repo', pr) = key)) as [<-|Hne].
      * rewrite lookup_insert_eq in Hin. cbn [default] in Hin.
        apply merge_or_create_elem in Hin as [Hin| ->].
        -- left. exact Hin.
        -- right. apply comment_of_prefix.
      * rewrite lookup_insert_ne in Hin by exact Hne. left. exact Hin.
  - intros repo' pr' before later i comment s'.
    apply edit_marked_finds, comment_of_marked.
Qed.

Lemma comment_begins_with_marker_witness :
  comment_of Ex.suite4
  ∈ default [] (threads (gh (after (report_to_github (Some "zephyr/ci") 7 (Some "abc123")
                                      Ex.suite4 Ex.docs4 Ex.stale)))
                !! ("zephyr/ci", 7))
  ∧ (comment_of Ex.suite4 ∈ default [] (threads (gh Ex.stale) !! ("zephyr/ci", 7))
     ∨ String.prefix marker (comment_of Ex.suite4) = true).
Proof.
  assert (Hin : comment_of Ex.suite4
    ∈ default [] (threads (gh (after (report_to_github (Some "zephyr/ci") 7 (Some "abc123")
                                        Ex.suite4 Ex.docs4 Ex.stale)))
                  !! ("zephyr/ci", 7))).
  { vm_compute. apply list_elem_of_further, list_elem_of_here. }
  split; [exact Hin|].
  exact (proj1 (proj2 (comment_begins_with_marker (Some "zephyr/ci") 7 (Some "abc123")
                         Ex.suite4 Ex.docs4 Ex.stale))
               ("zephyr/ci", 7) (comment_of Ex.suite4) Hin).
Defined.

(** C4. The checks that run are the registered checks that the filters let
    through, in the order of registration.  With a non-empty include list
    these are the checks whose name is in the list, the run is that of
    exactly these checks with nothing more printed (a name that matches no
    check has no effect), and the exclude list plays no part; with an empty
    include list they are the checks whose name is not in the exclude
    list. *)
Theorem checks_selected_by_filters w args subclasses suite docs s :
  let r := run_tests w args subclasses suite docs s in
  let r' := run_all w (default "" (Args.commits args)) (selected args subclasses)
              suite docs s in
  after r = after r'
  ∧ value r = value r'
  ∧ selected args subclasses `sublist_of` subclasses
  ∧ (Args.module args ≠ [] →
       printed r = printed r'
       ∧ selected args subclasses
         = filter (λ t, _name t ∈ Args.module args) subclasses)
  ∧ (Args.module args = [] →
       selected args subclasses
       = filter (λ t, _name t ∉ Args.exclude_module args) subclasses).
Proof.
  cbv zeta. unfold selected.
  destruct (decide (Args.module args = [])) as [Hnil|Hinc].
  - rewrite bool_decide_eq_false_2 by (intros Hne; exact (Hne Hnil)).
    destruct (run_tests_exclude w args Hnil subclasses suite docs s) as [Hafter Hvalue].
    split; [exact Hafter|]. split; [exact Hvalue|].
    split; [apply sublist_filter|]. split; [|auto]. intros Hne. contradiction.
  - rewrite bool_decide_eq_true_2 by exact Hinc.
    rewrite run_tests_include by exact Hinc.
    split; [reflexivity|]. split; [reflexivity|].
    split; [apply sublist_filter|]. split; [auto|]. intros Hnil. contradiction.
Qed.

Lemma checks_selected_by_filters_witness :
  Args.module Ex.include_args ≠ []
  ∧ printed (run_tests Ex.quiet Ex.include_args Ex.checks4 [] ∅ Ex.no_token)
    = printed (run_all Ex.quiet "HEAD~1.." (selected Ex.include_args Ex.checks4) [] ∅
                       Ex.no_token)
  ∧ map _name (selected Ex.include_args Ex.checks4) = ["Kconfig"; "Documentation"].
Proof.
  assert (Hne : Args.module Ex.include_args ≠ []) by discriminate.
  split; [exact Hne|].
  destruct (checks_selected_by_filters Ex.quiet Ex.include_args Ex.checks4 [] ∅
              Ex.no_token) as (_ & _ & _ & Hinc & _).
  destruct (Hinc Hne) as [Hprinted Hsel].
  split; [exact Hprinted|]. rewrite Hsel. vm_compute. reflexivity.
Defined.

(** C8, as stated, fails: [Documentation.run] raises on a warnings file
    that is not UTF-8, [main] ends with that exception, and no result (no
    report at all) is recorded for the check. *)
Lemma check_exception_reaches_caller :
  value (Documentation.run Ex.garbled "HEAD~1.." Ex.no_token) = Raised UnicodeDecodeError
  ∧ value (main Ex.checks4 Ex.garbled Ex.docs_only_args Ex.no_token)
    = Raised UnicodeDecodeError
  ∧ reports (after (main Ex.checks4 Ex.garbled Ex.docs_only_args Ex.no_token)) = [].
Proof. vm_compute. repeat split; reflexivity. Qed.

(** C8, amended.  The runner does not catch what a check raises: when the
    [run] of a check that the filters let through raises, [main] ends with
    that very exception, right where the check left the world and its
    output, so that no result is recorded for the check, no later check is
    run and no report is written.  A fault becomes a result only where the
    body of a check catches it itself. *)
Theorem check_exception_escapes_runner w args pre test post s out s1 suite1 docs1 e :
  runs_checks args →
  run_tests w args pre [] ∅ s = mkRun out s1 (Returned (suite1, docs1)) →
  selected args [test] = [test] →
  value (run test w (default "" (Args.commits args)) s1) = Raised e →
  let r := main (pre ++ test :: post) w args s in
  let raised := run test w (default "" (Args.commits args)) s1 in
  value r = Raised e
  ∧ after r = after raised
  ∧ printed r = (out ++ printed raised)%list.
Proof.
  intros Hruns Hpre Hsel Hraise. cbv zeta.
  rewrite main_runs_checks by exact Hruns.
  assert (Hloop : run_tests w args (pre ++ test :: post) [] ∅ s
                  = mkRun (out ++ printed (run test w (default "" (Args.commits args)) s1))
                          (after (run test w (default "" (Args.commits args)) s1))
                          (Raised e)).
  { rewrite run_tests_app. unfold mbind at 1, M_bind at 1. rewrite Hpre.
    cbn [printed after value fst snd].
    rewrite run_tests_selected by exact Hsel.
    rewrite (bind_raised _ _ _ _ Hraise). reflexivity. }
  unfold mbind, M_bind. rewrite Hloop. cbn [printed after value]. auto.
Qed.

Lemma check_exception_escapes_runner_witness :
  runs_checks Ex.local_args
  ∧ selected Ex.local_args [Documentation.class] = [Documentation.class]
  ∧ value (Documentation.run Ex.garbled "HEAD~1.."
             (after (run_tests Ex.garbled Ex.local_args
                               [CheckPatch.class; KconfigCheck.class] [] ∅ Ex.no_token)))
    = Raised UnicodeDecodeError
  ∧ value (main ([CheckPatch.class; KconfigCheck.class]
                 ++ Documentation.class :: [GitLint.class])
                Ex.garbled Ex.local_args Ex.no_token)
    = Raised UnicodeDecodeError.
Proof.
  assert (Hruns : runs_checks Ex.local_args) by (repeat split; reflexivity).
  assert (Hsel : selected Ex.local_args [Documentation.class] = [Documentation.class])
    by reflexivity.
  assert (Hraise :
    value (Documentation.run Ex.garbled "HEAD~1.."
             (after (run_tests Ex.garbled Ex.local_args
                               [CheckPatch.class; KconfigCheck.class] [] ∅ Ex.no_token)))
    = Raised UnicodeDecodeError) by (vm_compute; reflexivity).
  split; [exact Hruns|]. split; [exact Hsel|]. split; [exact Hraise|].
  refine (proj1 (check_exception_escapes_runner Ex.garbled Ex.local_args
                   [CheckPatch.class; KconfigCheck.class] Documentation.class
                   [GitLint.class] Ex.no_token _ _ _ _ UnicodeDecodeError
                   Hruns _ Hsel Hraise)).
  vm_compute. reflexivity.
Defined.

(** *** The style check *)

Lemma spawn_run w p s : spawn w p s = mkRun [] (add_proc s p) (launch w p).
Proof. reflexivity. Qed.

Lemma check_output_then w args sh {A} (a : A) s :
  (_ ← check_output w args sh; mret a) s
  = mkRun [] (add_proc s (mkProc args sh))
          (match launch w (mkProc args sh) with
           | Returned c =>
             if bool_decide (returncode c = 0) then Returned a
             else Raised (CalledProcessError (returncode c) (output c))
           | Raised e => Raised e
           end).
Proof.
  unfold check_output, mbind, M_bind. rewrite spawn_run. cbn [printed after value].
  destruct (launch w (mkProc args sh)) as [c|e]; [|reflexivity].
  case_bool_decide; reflexivity.
Qed.

(** The handler only computes. *)
Lemma on_error_pure case ex_output s :
  printed (CheckPatch.on_error case ex_output s) = []
  ∧ after (CheckPatch.on_error case ex_output s) = s.
Proof.
  unfold CheckPatch.on_error, decode_utf8, mbind, M_bind.
  destruct (Py.valid_utf8 ex_output); cbn; [|auto].
  destruct (Py.re_search_errors ex_output); cbn; auto.
Qed.

Lemma on_error_match case ex_output s :
  Py.valid_utf8 ex_output = true →
  Py.re_search_errors ex_output = true →
  value (CheckPatch.on_error case ex_output s)
  = Returned (set_result case (set_text (Failure "Checkpatch issues" "failure") ex_output)).
Proof.
  intros Hvalid Hmatch. unfold CheckPatch.on_error, decode_utf8, mbind, M_bind.
  rewrite Hvalid. cbn. rewrite Hmatch. cbn. reflexivity.
Qed.

(** C10. When [scripts/checkpatch.pl] does not exist, [CheckPatch.run] sets
    a Skipped result and goes on: it launches [git diff] and then the
    missing script through the shell.  The Skipped result stays if that
    command exits with 0; if it exits with another code and its output
    holds a match of the error pattern, the result is replaced by a Failure
    that carries the output. *)
Theorem checkpatch_goes_on_without_script w commit_range s diff :
  path_exists w (cwd w +:+ "/scripts/checkpatch.pl") = false →
  launch w (CheckPatch.diff_proc commit_range) = Returned diff →
  let r := CheckPatch.run w commit_range s in
  let skipped :=
    set_result (mkCase "checkpatch" (Some "Guidelines") None None)
               (Skipped "checkpatch script not found" "skipped") in
  procs (after r)
  = (procs s ++ [CheckPatch.diff_proc commit_range;
                 CheckPatch.checkpatch_proc (cwd w +:+ "/scripts/checkpatch.pl")])%list
  ∧ (∀ done,
       launch w (CheckPatch.checkpatch_proc (cwd w +:+ "/scripts/checkpatch.pl"))
       = Returned done →
       returncode done = 0 →
       value r = Returned skipped)
  ∧ (∀ done,
       launch w (CheckPatch.checkpatch_proc (cwd w +:+ "/scripts/checkpatch.pl"))
       = Returned done →
       returncode done ≠ 0 →
       Py.valid_utf8 (output done) = true →
       Py.re_search_errors (output done) = true →
       value r
       = Returned (set_result skipped
                     (set_text (Failure "Checkpatch issues" "failure") (output done)))).
Proof.
  intros Hmissing Hdiff. cbv zeta.
  unfold CheckPatch.run.
  erewrite bind_returned by (rewrite prepare_run; reflexivity).
  rewrite prepare_run. cbn [printed after value]. rewrite Hmissing. cbn [negb].
  unfold Popen. fold (CheckPatch.diff_proc commit_range).
  fold (CheckPatch.checkpatch_proc (cwd w +:+ "/scripts/checkpatch.pl")).
  erewrite bind_returned by (rewrite spawn_run; exact Hdiff).
  rewrite spawn_run. cbn [printed after value].
  unfold try_CalledProcessError. unfold CheckPatch.checkpatch_proc.
  rewrite check_output_then. cbn [printed after value].
  fold (CheckPatch.checkpatch_proc (cwd w +:+ "/scripts/checkpatch.pl")).
  set (s2 := add_proc (add_proc s (CheckPatch.diff_proc commit_range))
                      (CheckPatch.checkpatch_proc (cwd w +:+ "/scripts/checkpatch.pl"))).
  assert (Hprocs : procs s2
                   = (procs s ++ [CheckPatch.diff_proc commit_range;
                        CheckPatch.checkpatch_proc (cwd w +:+ "/scripts/checkpatch.pl")])%list).
  { unfold s2, add_proc. cbn [procs]. rewrite <- app_assoc. reflexivity. }
  split; [|split].
  - destruct (launch w (CheckPatch.checkpatch_proc _)) as [done|e].
    + case_bool_decide; cbn [printed after value]; [exact Hprocs|].
      rewrite (proj2 (on_error_pure _ _ _)). exact Hprocs.
    + destruct e; cbn [printed after value]; try exact Hprocs.
      rewrite (proj2 (on_error_pure _ _ _)). exact Hprocs.
  - intros done Hdone Hzero. rewrite Hdone.
    rewrite bool_decide_eq_true_2 by exact Hzero. reflexivity.
  - intros done Hdone Hcode Hvalid Hmatch. rewrite Hdone.
    rewrite bool_decide_eq_false_2 by exact Hcode. cbn [printed after value].
    apply on_error_match; assumption.
Qed.

Lemma checkpatch_goes_on_without_script_witness :
  path_exists Ex.no_script (cwd Ex.no_script +:+ "/scripts/checkpatch.pl") = false
  ∧ launch Ex.no_script (CheckPatch.diff_proc "HEAD~1..") = Returned (mkCompleted 0 "")
  ∧ procs (after (CheckPatch.run Ex.no_script "HEAD~1.." Ex.no_token))
    = [CheckPatch.diff_proc "HEAD~1..";
       CheckPatch.checkpatch_proc (cwd Ex.no_script +:+ "/scripts/checkpatch.pl")]
  ∧ (status_of <$> value_of (CheckPatch.run Ex.no_script "HEAD~1.." Ex.no_token))
    = Some Failed.
Proof.
  split; [reflexivity|]. split; [reflexivity|].
  destruct (checkpatch_goes_on_without_script Ex.no_script "HEAD~1.." Ex.no_token
              (mkCompleted 0 "") eq_refl eq_refl) as (Hprocs & _ & Hfailed).
  split; [exact Hprocs|].
  unfold value_of.
  rewrite (Hfailed (mkCompleted 127
             "/bin/sh: 1: /work/0 errors, 1 errors, fixed/scripts/checkpatch.pl: not found")
             eq_refl ltac:(discriminate) eq_refl eq_refl).
  reflexivity.
Defined.

(** C7.  The report holds one test case per result, with the name of the
    check, the class name "Guidelines" and, for a result that is not
    Passed, the result element with its text; the [doc] attribute that
    [MyCase] declares is never assigned, so the record carries no doc
    reference.  [prepare] builds the case of every check, and the report of
    a run of the documentation check shows the record as written. *)
Theorem report_record_has_no_doc :
  (∀ test_name s,
     value (prepare test_name s)
     = Returned {| name := test_name; classname := Some "Guidelines";
                   doc := None; result := None |})
  ∧ reports (after (main Ex.checks4 Ex.quiet Ex.docs_only_args Ex.no_token))
    = [("compliance.xml",
        [{| name := "Documentation"; classname := Some "Guidelines";
            doc := None; result := None |}])]
  ∧ reports (after (main Ex.checks4 Ex.no_script Ex.local_args Ex.no_token))
    = [("compliance.xml",
        [{| name := "checkpatch"; classname := Some "Guidelines"; doc := None;
            result := Some
              {| tag := TagFailure; message := Some "Checkpatch issues";
                 type_ := Some "failure";
                 text := Some "/bin/sh: 1: /work/0 errors, 1 errors, fixed/scripts/checkpatch.pl: not found" |} |};
         {| name := "Kconfig"; classname := Some "Guidelines"; doc := None;
            result := Some
              {| tag := TagSkipped; message := Some "Not a Zephyr tree";
                 type_ := Some "skipped"; text := None |} |};
         {| name := "Documentation"; classname := Some "Guidelines"; doc := None;
            result := None |};
         {| name := "Gitlint"; classname := Some "Guidelines"; doc := None;
            result := None |}])].
Proof.
  split; [reflexivity|]. split; vm_compute; reflexivity.
Qed.

(** *** The scenarios of the specification *)

(** A: one failed commit-message check, exit code 1. *)
Example scenario_A :
  exit_status (conclude Ex.quiet Ex.local_args [Ex.gitlint_failed] Ex.docs4 Ex.no_token)
  = 1%nat.
Proof. vm_compute. reflexivity. Qed.

(** B: one skipped check: exit code 0, the report holds the skipped case, and
    publishing writes no comment. *)
Example scenario_B :
  let r := conclude Ex.quiet Ex.github_args [Ex.kconfig_skipped] Ex.docs4 Ex.with_token in
  exit_status r = 0%nat
  ∧ reports (after r) = [("compliance.xml", [Ex.kconfig_skipped])]
  ∧ threads (gh (after r)) = ∅.
Proof. vm_compute. repeat split; reflexivity. Qed.

(** C: of the checks A, B and C, the include list [B] selects B alone. *)
Example scenario_C : _name <$> selected Ex.only_b Ex.abc = ["B"].
Proof. vm_compute. reflexivity. Qed.

(** D: two runs that fail the license check on the same thread leave one
    comment, which shows the report of the second run. *)
Example scenario_D :
  let publish report :=
    report_to_github (Some "zephyr/ci") 7 (Some "abc123")
                     [Ex.license_failed report] Ex.license_docs in
  thread_of (gh (after ((_ ← publish "* a.c missing license."; publish "* b.c missing copyright.")
                          Ex.with_token)))
            "zephyr/ci" 7
  = [comment_of [Ex.license_failed "* b.c missing copyright."]].
Proof. vm_compute. reflexivity. Qed.

(** *** The other modes of [main] *)

Lemma for_each_print_names subclasses s :
  for_each (λ (_ : unit) test, print (_name test)) subclasses tt s
  = mkRun (_name <$> subclasses) s (Returned tt).
Proof.
  induction subclasses as [|test rest IH]; [reflexivity|].
  rewrite for_each_cons.
  erewrite bind_returned by reflexivity. cbn [print printed after value].
  rewrite IH. reflexivity.
Qed.

(** With [--list], [main] prints the name of every registered check, in the
    order of registration, touches nothing and exits with 0, whatever else
    the command line holds. *)
Theorem list_mode_prints_every_name subclasses w args s :
  Args.list args = true →
  main subclasses w args s
  = mkRun (_name <$> subclasses) s (Raised (SystemExit (Some 0%nat))).
Proof.
  intros Hlist. unfold main. rewrite Hlist.
  erewrite bind_returned by (rewrite for_each_print_names; reflexivity).
  rewrite for_each_print_names. cbn [printed after value sys_exit raise].
  rewrite app_nil_r. reflexivity.
Qed.

Lemma list_mode_prints_every_name_witness :
  Args.list Ex.list_args = true
  ∧ printed (main Ex.checks4 Ex.quiet Ex.list_args Ex.with_token)
    = ["checkpatch"; "Kconfig"; "Documentation"; "Gitlint"].
Proof.
  split; [reflexivity|].
  rewrite (list_mode_prints_every_name Ex.checks4 Ex.quiet Ex.list_args Ex.with_token
             eq_refl).
  reflexivity.
Defined.

Lemma set_status_step repo sha test s :
  (_ ← print ("Creating status for " +:+ _name test);
   create_status repo sha "pending" (_doc test) "Verification in progress" (_name test)) s
  = mkRun ["Creating status for " +:+ _name test]
          (set_gh s (add_statuses (gh s)
             [mkStatus repo sha "pending" (_doc test) "Verification in progress"
                       (_name test)]))
          (Returned tt).
Proof. reflexivity. Qed.

Lemma set_status_loop repo sha subclasses : ∀ s,
  for_each (λ (_ : unit) test,
      _ ← print ("Creating status for " +:+ _name test);
      create_status repo sha "pending" (_doc test) "Verification in progress"
                    (_name test))
    subclasses tt s
  = mkRun ((λ test, "Creating status for " +:+ _name test) <$> subclasses)
          (set_gh s (add_statuses (gh s)
             ((λ test, mkStatus repo sha "pending" (_doc test)
                                "Verification in progress" (_name test))
              <$> subclasses)))
          (Returned tt).
Proof.
  induction subclasses as [|test rest IH]; intros s.
  - simpl. rewrite add_statuses_nil, set_gh_gh. reflexivity.
  - rewrite for_each_cons.
    erewrite bind_returned by (rewrite set_status_step; reflexivity).
    rewrite set_status_step. cbn [printed after value].
    rewrite IH. cbn [printed after value gh set_gh].
    rewrite add_statuses_app. reflexivity.
Qed.

(** [set_status] creates one [pending] status per registered check, in
    order, with the doc reference of the check as its target and the name
    of the check as its context, and says so on standard output; without a
    token it does nothing at all.  Comments are never touched. *)
Theorem set_status_pending_for_every_check subclasses repo sha s :
  set_status subclasses (Some repo) (Some sha) s
  = if bool_decide ("GH_TOKEN" ∈ dom (environ s))
    then mkRun ((λ test, "Creating status for " +:+ _name test) <$> subclasses)
               (set_gh s (add_statuses (gh s)
                  ((λ test, mkStatus repo sha "pending" (_doc test)
                                     "Verification in progress" (_name test))
                   <$> subclasses)))
               (Returned tt)
    else mkRun [] s (Returned tt).
Proof.
  unfold set_status.
  erewrite bind_returned by reflexivity. cbn [get_sys printed after value].
  destruct (decide ("GH_TOKEN" ∈ dom (environ s))) as [Hin|Hout].
  - rewrite bool_decide_eq_false_2 by (intros Hn; exact (Hn Hin)).
    rewrite bool_decide_eq_true_2 by exact Hin. cbn [get_str].
    erewrite bind_returned by reflexivity. cbn [mret M_ret printed after value].
    erewrite bind_returned by reflexivity. cbn [mret M_ret printed after value].
    rewrite set_status_loop. reflexivity.
  - rewrite bool_decide_eq_true_2 by exact Hout.
    rewrite bool_decide_eq_false_2 by exact Hout. reflexivity.
Qed.

Lemma set_status_frame subclasses repo sha s :
  let r := set_status subclasses (Some repo) (Some sha) s in
  value r = Returned tt
  ∧ procs (after r) = procs s
  ∧ reports (after r) = reports s
  ∧ environ (after r) = environ s
  ∧ threads (gh (after r)) = threads (gh s).
Proof.
  cbv zeta. unfold set_status.
  erewrite bind_returned by reflexivity. cbn [get_sys printed after value].
  case_bool_decide.
  - cbn. auto.
  - cbn [get_str].
    erewrite bind_returned by reflexivity. cbn [mret M_ret printed after value].
    erewrite bind_returned by reflexivity. cbn [mret M_ret printed after value].
    rewrite set_status_loop. cbn. auto.
Qed.

(** The command line does not ask for a run of the checks. *)
Lemma not_runs_checks args :
  ¬ runs_checks args →
  Args.list args = true
  ∨ (Args.list args = false
     ∧ Args.status args && bool_decide (is_Some (Args.sha args))
       && truthy (Args.repo args) = true)
  ∨ (Args.list args = false
     ∧ Args.status args && bool_decide (is_Some (Args.sha args))
       && truthy (Args.repo args) = false
     ∧ truthy (Args.commits args) = false).
Proof.
  intros Hnot. unfold runs_checks in Hnot.
  destruct (Args.list args); [auto|].
  destruct (Args.status args && bool_decide (is_Some (Args.sha args))
            && truthy (Args.repo args)); [auto|].
  destruct (truthy (Args.commits args)); [|auto].
  exfalso. apply Hnot. auto.
Qed.

(** Outside a run of the checks ([--list], the pending-status mode, or no
    commit range, an empty one included) [main] starts no process, writes
    no report and touches no comment; it exits with 0 in the first two
    modes, which come first in this order, and with 1 for the missing
    range. *)
Theorem no_check_runs_in_the_other_modes subclasses w args s :
  ¬ runs_checks args →
  let r := main subclasses w args s in
  procs (after r) = procs s
  ∧ reports (after r) = reports s
  ∧ environ (after r) = environ s
  ∧ threads (gh (after r)) = threads (gh s)
  ∧ exit_status r
    = (if Args.list args
          || Args.status args && bool_decide (is_Some (Args.sha args))
             && truthy (Args.repo args)
       then 0 else 1)%nat.
Proof.
  intros Hnot. cbv zeta.
  destruct (not_runs_checks args Hnot)
    as [Hlist | [(Hlist & Hstatus) | (Hlist & Hstatus & Hc)]].
  - unfold main. rewrite Hlist.
    erewrite bind_returned by (rewrite for_each_print_names; reflexivity).
    rewrite for_each_print_names. cbn. auto.
  - unfold main. rewrite Hlist, Hstatus. cbn [orb].
    apply andb_true_iff in Hstatus as [Hstatus Hrepo].
    apply andb_true_iff in Hstatus as [_ Hsha].
    apply bool_decide_eq_true in Hsha. destruct Hsha as [sha Hsha].
    destruct (Args.repo args) as [repo|]; [|discriminate]. rewrite Hsha.
    destruct (set_status_frame subclasses repo sha s) as (Hv & Hp & Hr & He & Ht).
    erewrite bind_returned by exact Hv. cbn. auto.
  - unfold main. rewrite Hlist, Hstatus, Hc. cbn. auto.
Qed.

Lemma no_check_runs_in_the_other_modes_witness :
  ¬ runs_checks Ex.status_args
  ∧ procs (after (main Ex.checks4 Ex.quiet Ex.status_args Ex.with_token)) = []
  ∧ exit_status (main Ex.checks4 Ex.quiet Ex.status_args Ex.with_token) = 0%nat.
Proof.
  assert (Hnot : ¬ runs_checks Ex.status_args).
  { intros (_ & Hstatus & _). vm_compute in Hstatus. discriminate. }
  split; [exact Hnot|].
  destruct (no_check_runs_in_the_other_modes Ex.checks4 Ex.quiet Ex.status_args
              Ex.with_token Hnot) as (Hprocs & _ & _ & _ & Hexit).
  split; [exact Hprocs | exact Hexit].
Defined.

(** *** More on publishing *)

Lemma report_loop_raises repo sha docs suite : ∀ acc s e,
  value (for_each (report_case repo sha docs) suite acc s) = Raised e →
  ∃ k, e = KeyError k.
Proof.
  induction suite as [|c suite IH]; intros acc s e Hraise.
  - discriminate.
  - rewrite for_each_cons in Hraise. destruct acc as [comment n].
    destruct (docs !! name c) as [url|] eqn:Hurl.
    + assert (Hc : is_Some (docs !! name c)) by (rewrite Hurl; eauto).
      erewrite bind_returned in Hraise
        by (rewrite report_case_covered by exact Hc; reflexivity).
      cbn [value] in Hraise. eapply IH. exact Hraise.
    + erewrite bind_raised in Hraise
        by (rewrite report_case_missing by exact Hurl; reflexivity).
      cbn [value] in Hraise. inversion Hraise. eauto.
Qed.

(** What [report_to_github] can do to the statuses, and what it can raise. *)
Lemma report_to_github_effects repo pr sha suite docs s :
  let r := report_to_github repo pr sha suite docs s in
  (∃ l, statuses (gh (after r)) = (statuses (gh s) ++ l)%list)
  ∧ ∀ e, value r = Raised e → e = AssertionError ∨ ∃ k, e = KeyError k.
Proof.
  cbv zeta. unfold report_to_github.
  erewrite bind_returned by reflexivity. cbn [get_sys printed after value].
  case_bool_decide as Htoken.
  { cbn. split; [exists []; rewrite app_nil_r; reflexivity|]. intros e He. discriminate. }
  destruct repo as [repo|]; cbn [get_str].
  2:{ cbn. split; [exists []; rewrite app_nil_r; reflexivity|].
      intros e He. left. by inversion He. }
  erewrite bind_returned by reflexivity. cbn [mret M_ret printed after value].
  destruct sha as [sha|]; cbn [get_str].
  2:{ cbn. split; [exists []; rewrite app_nil_r; reflexivity|].
      intros e He. left. by inversion He. }
  erewrite bind_returned by reflexivity. cbn [mret M_ret printed after value].
  erewrite bind_returned by reflexivity. cbn [print printed after value].
  match goal with |- context [for_each ?f suite ?acc] =>
    destruct (report_loop_frame repo sha docs suite (fst acc) (snd acc) s)
      as (_ & [l Hl] & _);
    cbn [fst snd] in Hl;
    pose proof (report_loop_raises repo sha docs suite acc s) as Hkind;
    destruct (value (for_each f suite acc s)) as [[comment n]|e0] eqn:Hval
  end.
  - erewrite bind_returned by exact Hval. rewrite Hl. cbn [printed after value].
    destruct (bool_decide (pr ≠ 0) && (0 <? n)%nat).
    + erewrite bind_returned by (rewrite sync_comment_run; reflexivity).
      rewrite sync_comment_run. cbn. split; [eauto|]. intros e He. discriminate.
    + cbn. split; [eauto|]. intros e He. discriminate.
  - erewrite bind_raised by exact Hval. rewrite Hl. cbn.
    split; [eauto|]. intros e He. inversion He; subst. right. eapply Hkind. reflexivity.
Qed.

Lemma first_marked_lookup comments : ∀ i,
  first_marked comments = Some i →
  ∃ body, comments !! i = Some body ∧ Py.contains marker body = true.
Proof.
  induction comments as [|body rest IH]; intros i Hi; simpl in Hi; [discriminate|].
  destruct (Py.contains marker body) eqn:Hb.
  - inversion Hi; subst. exists body. auto.
  - destruct (first_marked rest) as [j|]; [|discriminate].
    inversion Hi; subst. destruct (IH j eq_refl) as (b & Hb1 & Hb2).
    exists b. auto.
Qed.

Lemma merge_or_create_keeps comment comments i body :
  comments !! i = Some body →
  Py.contains marker body = false →
  merge_or_create comment comments !! i = Some body.
Proof.
  intros Hi Hb. rewrite merge_or_create_first.
  destruct (first_marked comments) as [j|] eqn:Hj.
  - destruct (first_marked_lookup comments j Hj) as (b & Hb1 & Hb2).
    destruct (decide (j = i)) as [->|Hne]; [congruence|].
    rewrite list_lookup_insert_ne by exact Hne. exact Hi.
  - rewrite lookup_app_l; [exact Hi|]. eapply lookup_lt_Some. exact Hi.
Qed.

(** [report_to_github] only adds: whatever it is given, it leaves the
    environment, the processes and the reports alone, keeps every status
    that was there, and keeps every comment that does not carry the marker
    where it was, on every thread; no thread grows by more than one
    comment. *)
Theorem publishing_only_adds repo pr sha suite docs s :
  let r := report_to_github repo pr sha suite docs s in
  environ (after r) = environ s
  ∧ procs (after r) = procs s
  ∧ reports (after r) = reports s
  ∧ (∃ l, statuses (gh (after r)) = (statuses (gh s) ++ l)%list)
  ∧ ∀ repo' pr',
      (length (thread_of (gh (after r)) repo' pr')
       ≤ S (length (thread_of (gh s) repo' pr')))%nat
      ∧ ∀ i body,
          thread_of (gh s) repo' pr' !! i = Some body →
          Py.contains marker body = false →
          thread_of (gh (after r)) repo' pr' !! i = Some body.
Proof.
  cbv zeta.
  destruct (report_to_github_frame repo pr sha suite docs s)
    as (Henv & Hprocs & Hreports & Hthreads & _).
  destruct (report_to_github_effects repo pr sha suite docs s) as (Hstatuses & _).
  split; [exact Henv|]. split; [exact Hprocs|]. split; [exact Hreports|].
  split; [exact Hstatuses|].
  intros repo' pr'. unfold thread_of.
  destruct Hthreads as [Hsame | (repo0 & _ & _ & _ & Hnew)].
  - rewrite Hsame. split; [lia|]. auto.
  - rewrite Hnew. destruct (decide ((repo0, pr) = (repo', pr'))) as [Heq|Hne].
    + inversion Heq; subst. rewrite lookup_insert_eq. cbn [default id].
      fold (thread_of (gh s) repo' pr'). split.
      * rewrite merge_or_create_length.
        destruct (first_marked _); lia.
      * intros i body Hi Hb. apply merge_or_create_keeps; assumption.
    + rewrite lookup_insert_ne by exact Hne. split; [lia|]. auto.
Qed.

Lemma publishing_only_adds_witness :
  thread_of (gh Ex.stale) "zephyr/ci" 7 !! 0%nat = Some "Looks good to me"
  ∧ Py.contains marker "Looks good to me" = false
  ∧ thread_of (gh (after (report_to_github (Some "zephyr/ci") 7 (Some "abc123")
                            Ex.suite4 Ex.docs4 Ex.stale))) "zephyr/ci" 7 !! 0%nat
    = Some "Looks good to me".
Proof.
  assert (H0 : thread_of (gh Ex.stale) "zephyr/ci" 7 !! 0%nat = Some "Looks good to me")
    by (vm_compute; reflexivity).
  assert (Hb : Py.contains marker "Looks good to me" = false) by (vm_compute; reflexivity).
  split; [exact H0|]. split; [exact Hb|].
  exact (proj2 (proj2 (proj2 (proj2 (proj2
           (publishing_only_adds (Some "zephyr/ci") 7 (Some "abc123")
              Ex.suite4 Ex.docs4 Ex.stale)))) "zephyr/ci" 7) 0%nat "Looks good to me" H0 Hb).
Defined.

(** Of two publications on the same thread the later one wins: the thread
    is what the second publication alone would have left, so its comment
    shows the results of the second run. *)
Theorem later_publication_wins repo pr sha suite1 suite2 docs s :
  "GH_TOKEN" ∈ dom (environ s) →
  covers docs suite1 →
  covers docs suite2 →
  pr ≠ 0 →
  (0 < count_errors suite1)%nat →
  (0 < count_errors suite2)%nat →
  let publish suite := report_to_github (Some repo) pr (Some sha) suite docs in
  thread_of (gh (after (publish suite2 (after (publish suite1 s))))) repo pr
  = thread_of (gh (after (publish suite2 s))) repo pr.
Proof.
  intros Htoken Hcov1 Hcov2 Hpr Hc1 Hc2. cbv beta zeta.
  rewrite (report_to_github_run repo pr sha suite1) by assumption. cbn [after].
  rewrite !report_to_github_run
    by (try rewrite published_environ; assumption). cbn [after].
  rewrite !published_thread by assumption.
  apply merge_or_create_absorb, comment_of_marked.
Qed.

Lemma later_publication_wins_witness :
  "GH_TOKEN" ∈ dom (environ Ex.stale)
  ∧ covers Ex.docs4 Ex.suite4
  ∧ covers Ex.docs4 [Ex.gitlint_failed]
  ∧ 7 ≠ 0
  ∧ (0 < count_errors Ex.suite4)%nat
  ∧ (0 < count_errors [Ex.gitlint_failed])%nat
  ∧ thread_of
      (gh (after (report_to_github (Some "zephyr/ci") 7 (Some "abc123")
                    [Ex.gitlint_failed] Ex.docs4
                    (after (report_to_github (Some "zephyr/ci") 7 (Some "abc123")
                              Ex.suite4 Ex.docs4 Ex.stale)))))
      "zephyr/ci" 7
    = ["Looks good to me"; comment_of [Ex.gitlint_failed]].
Proof.
  assert (Htoken : "GH_TOKEN" ∈ dom (environ Ex.stale)).
  { apply elem_of_dom. eexists. vm_compute. reflexivity. }
  assert (Hcov : covers Ex.docs4 [Ex.gitlint_failed]).
  { apply Forall_cons_2; [|apply Forall_nil_2]. eexists. vm_compute. reflexivity. }
  assert (H7 : 7 ≠ 0) by discriminate.
  assert (Hc1 : (0 < count_errors Ex.suite4)%nat) by (vm_compute; lia).
  assert (Hc2 : (0 < count_errors [Ex.gitlint_failed])%nat) by (vm_compute; lia).
  repeat (split; [assumption || exact docs4_covers|]).
  rewrite (later_publication_wins "zephyr/ci" 7 "abc123" Ex.suite4 [Ex.gitlint_failed]
             Ex.docs4 Ex.stale Htoken docs4_covers Hcov H7 Hc1 Hc2).
  vm_compute. reflexivity.
Defined.

(** *** More on the end of [main] *)

(** [--github] without a token is no publication at all: the end of [main]
    runs exactly as without [--github], output, world and exit code. *)
Theorem github_without_token_is_local w args suite docs s :
  "GH_TOKEN" ∉ dom (environ s) →
  conclude w (set_github args true) suite docs s
  = conclude w (set_github args false) suite docs s.
Proof.
  intros Hout.
  destruct (write_fault w (Args.output args)) as [e|] eqn:Hwrite.
  - rewrite !(conclude_write_fault _ _ _ _ _ e) by exact Hwrite. reflexivity.
  - rewrite !conclude_local; try exact Hwrite; try reflexivity.
    unfold publishing. rewrite bool_decide_eq_false_2 by exact Hout.
    apply andb_false_r.
Qed.

Lemma github_without_token_is_local_witness :
  ("GH_TOKEN" ∉ dom (environ Ex.no_token))
  ∧ conclude Ex.quiet (set_github Ex.github_args true) Ex.suite4 Ex.docs4 Ex.no_token
    = conclude Ex.quiet (set_github Ex.github_args false) Ex.suite4 Ex.docs4 Ex.no_token.
Proof.
  assert (Hout : "GH_TOKEN" ∉ dom (environ Ex.no_token)).
  { intros Hin. apply elem_of_dom in Hin as [v Hv]. vm_compute in Hv. discriminate. }
  split; [exact Hout|].
  exact (github_without_token_is_local Ex.quiet Ex.github_args Ex.suite4 Ex.docs4
           Ex.no_token Hout).
Defined.

Lemma conclude_reports w args suite docs s :
  write_fault w (Args.output args) = None →
  reports (after (conclude w args suite docs s))
  = (reports s ++ [(Args.output args, suite)])%list.
Proof.
  intros Hwrite. unfold conclude, xml_write. rewrite Hwrite.
  erewrite bind_returned by reflexivity. cbn [printed after value].
  erewrite bind_returned by reflexivity. cbn [get_sys printed after value environ].
  fold (add_report s (Args.output args) suite).
  destruct (Args.github args && bool_decide ("GH_TOKEN" ∈ dom (environ s))).
  - destruct (report_to_github_frame (Args.repo args) (Args.pull_request args)
                (Args.sha args) suite docs (add_report s (Args.output args) suite))
      as (_ & _ & Hreports & _).
    destruct (value (report_to_github (Args.repo args) (Args.pull_request args)
                (Args.sha args) suite docs (add_report s (Args.output args) suite)))
      as [errors|e] eqn:Hval.
    + erewrite bind_returned by exact Hval. cbn [printed after value].
      destruct errors as [[|n]|]; cbn; exact Hreports.
    + erewrite bind_raised by exact Hval. cbn. exact Hreports.
  - erewrite bind_returned by reflexivity. cbn [mret M_ret printed after value].
    destruct (count_errors suite); reflexivity.
Qed.

(** The report comes first: if it cannot be written, [main] ends with the
    fault of the writer and nothing is published; if it can, the suite is
    on file, once, whatever happens while publishing. *)
Theorem report_is_written_before_publishing w args suite docs s :
  match write_fault w (Args.output args) with
  | Some e => conclude w args suite docs s = mkRun [] s (Raised e)
  | None =>
    reports (after (conclude w args suite docs s))
    = (reports s ++ [(Args.output args, suite)])%list
  end.
Proof.
  destruct (write_fault w (Args.output args)) as [e|] eqn:Hwrite.
  - apply conclude_write_fault. exact Hwrite.
  - apply conclude_reports. exact Hwrite.
Qed.

Lemma run_all_cases w commit_range tests : ∀ suite docs s suite' docs',
  value (run_all w commit_range tests suite docs s) = Returned (suite', docs') →
  ∃ new, suite' = (suite ++ new)%list
         ∧ Forall2 (λ test case, ∃ s0, value (run test w commit_range s0) = Returned case)
                   tests new.
Proof.
  induction tests as [|test rest IH]; intros suite docs s suite' docs' Hval.
  - apply ret_inv in Hval. inversion Hval; subst. exists [].
    rewrite app_nil_r. split; [reflexivity|constructor].
  - cbn [run_all] in Hval. apply bind_inv in Hval as (case & Hcase & Hval).
    apply IH in Hval as (new & -> & Hnew).
    exists (case :: new). rewrite <- app_assoc. split; [reflexivity|].
    constructor; [eauto|exact Hnew].
Qed.

Lemma run_tests_value w args subclasses suite docs s :
  value (run_tests w args subclasses suite docs s)
  = value (run_all w (default "" (Args.commits args)) (selected args subclasses)
                   suite docs s).
Proof.
  unfold selected. destruct (decide (Args.module args = [])) as [Hnil|Hinc].
  - rewrite bool_decide_eq_false_2 by (intros Hne; exact (Hne Hnil)).
    apply run_tests_exclude. exact Hnil.
  - rewrite bool_decide_eq_true_2 by exact Hinc.
    rewrite run_tests_include by exact Hinc. reflexivity.
Qed.

Lemma selected_length args subclasses :
  (length (selected args subclasses) ≤ length subclasses)%nat.
Proof. unfold selected. destruct (bool_decide _); apply length_filter. Qed.

(** The suite of a run holds one case per check that the filters let
    through, in the order of registration: the case that the [run] of that
    check returned; [docs] has an entry for each of them.  When every check
    names its case after itself, as [prepare] does, the names of the cases
    are the names of these checks. *)
Theorem one_case_per_selected_check w args subclasses s suite docs :
  value (run_tests w args subclasses [] ∅ s) = Returned (suite, docs) →
  Forall2 (λ test case,
             ∃ s0, value (run test w (default "" (Args.commits args)) s0) = Returned case)
          (selected args subclasses) suite
  ∧ covers docs suite
  ∧ ((∀ test s0 case,
        value (run test w (default "" (Args.commits args)) s0) = Returned case →
        name case = _name test) →
     name <$> suite = _name <$> selected args subclasses).
Proof.
  intros Hval.
  pose proof (run_tests_covers w args subclasses [] ∅ s suite docs (Forall_nil_2 _) Hval)
    as Hcov.
  rewrite run_tests_value in Hval.
  apply run_all_cases in Hval as (new & Hsuite & Hnew). simpl in Hsuite. subst new.
  split; [exact Hnew|]. split; [exact Hcov|].
  intros Hnames. clear Hcov.
  induction Hnew as [|test case tests cases (s0 & Hrun) _ IH]; [reflexivity|].
  cbn [fmap list_fmap]. f_equal; [eapply Hnames; exact Hrun | exact IH].
Qed.

Lemma one_case_per_selected_check_witness :
  value (run_tests Ex.quiet Ex.include_args Ex.checks4 [] ∅ Ex.no_token)
  = Returned ([Ex.kconfig_skipped; Ex.passed "Documentation"],
              <["Documentation" := Documentation._doc]>
                (<["Kconfig" := KconfigCheck._doc]> ∅))
  ∧ covers (<["Documentation" := Documentation._doc]>
              (<["Kconfig" := KconfigCheck._doc]> ∅))
           [Ex.kconfig_skipped; Ex.passed "Documentation"].
Proof.
  assert (Hval : value (run_tests Ex.quiet Ex.include_args Ex.checks4 [] ∅ Ex.no_token)
    = Returned ([Ex.kconfig_skipped; Ex.passed "Documentation"],
                <["Documentation" := Documentation._doc]>
                  (<["Kconfig" := KconfigCheck._doc]> ∅))) by (vm_compute; reflexivity).
  split; [exact Hval|].
  exact (proj1 (proj2 (one_case_per_selected_check Ex.quiet Ex.include_args Ex.checks4
                         Ex.no_token _ _ Hval))).
Defined.

Lemma conclude_exit_bound w args suite docs s :
  write_fault w (Args.output args) = None →
  (exit_status (conclude w args suite docs s) ≤ Nat.max 1 (length suite))%nat.
Proof.
  intros Hwrite. pose proof (count_errors_le suite) as Hle.
  destruct (publishing args s) eqn:Hpub.
  2:{ rewrite conclude_local by assumption. unfold exit_status. cbn. lia. }
  unfold conclude, xml_write. rewrite Hwrite.
  erewrite bind_returned by reflexivity. cbn [printed after value].
  erewrite bind_returned by reflexivity. cbn [get_sys printed after value environ].
  unfold publishing in Hpub. rewrite Hpub.
  fold (add_report s (Args.output args) suite).
  destruct (report_to_github_frame (Args.repo args) (Args.pull_request args)
              (Args.sha args) suite docs (add_report s (Args.output args) suite))
    as (_ & _ & _ & _ & Hret).
  destruct (report_to_github_effects (Args.repo args) (Args.pull_request args)
              (Args.sha args) suite docs (add_report s (Args.output args) suite))
    as (_ & Hraise).
  destruct (value (report_to_github (Args.repo args) (Args.pull_request args)
              (Args.sha args) suite docs (add_report s (Args.output args) suite)))
    as [errors|e] eqn:Hval.
  - erewrite bind_returned by exact Hval. cbn [printed after value].
    destruct (Hret errors eq_refl) as [[-> _] | [-> _]].
    + unfold exit_status, mbind, M_bind. cbn. lia.
    + destruct (count_errors suite) as [|n]; unfold exit_status, mbind, M_bind; cbn; lia.
  - erewrite bind_raised by exact Hval. unfold exit_status. cbn [value].
    destruct (Hraise e eq_refl) as [-> | [k ->]]; lia.
Qed.

(** When the checks return and the report can be written, the exit status
    of [main] is at most the number of registered checks (and at most 1 if
    there is none), so it is far from the 256 at which exit codes wrap
    around. *)
Theorem exit_status_at_most_number_of_checks subclasses w args s suite docs :
  value (run_tests w args subclasses [] ∅ s) = Returned (suite, docs) →
  write_fault w (Args.output args) = None →
  (exit_status (main subclasses w args s) ≤ Nat.max 1 (length subclasses))%nat.
Proof.
  intros Hval Hwrite. unfold main.
  destruct (Args.list args).
  { erewrite bind_returned by (rewrite for_each_print_names; reflexivity).
    unfold exit_status, mbind, M_bind. cbn. lia. }
  destruct (Args.status args && bool_decide (is_Some (Args.sha args))
            && truthy (Args.repo args)) eqn:Hstatus.
  { apply andb_true_iff in Hstatus as [Hstatus Hrepo].
    apply andb_true_iff in Hstatus as [_ Hsha].
    apply bool_decide_eq_true in Hsha. destruct Hsha as [sha Hsha].
    destruct (Args.repo args) as [repo|]; [|discriminate]. rewrite Hsha.
    destruct (set_status_frame subclasses repo sha s) as (Hv & _).
    erewrite bind_returned by exact Hv. unfold exit_status, mbind, M_bind. cbn. lia. }
  destruct (negb (truthy (Args.commits args))).
  { unfold exit_status, mbind, M_bind. cbn. lia. }
  rewrite (exit_status_bind_returned _ _ _ _ Hval). cbn [fst snd].
  pose proof (conclude_exit_bound w args suite docs
                (after (run_tests w args subclasses [] ∅ s)) Hwrite) as Hbound.
  rewrite run_tests_value in Hval.
  apply run_all_cases in Hval as (new & Hsuite & Hnew). simpl in Hsuite. subst new.
  apply Forall2_length in Hnew. pose proof (selected_length args subclasses). lia.
Qed.

Lemma exit_status_at_most_number_of_checks_witness :
  write_fault Ex.no_script (Args.output Ex.local_args) = None
  ∧ (exit_status (main Ex.checks4 Ex.no_script Ex.local_args Ex.no_token) ≤ 4)%nat.
Proof.
  split; [reflexivity|].
  refine (exit_status_at_most_number_of_checks Ex.checks4 Ex.no_script Ex.local_args
            Ex.no_token _ _ _ eq_refl).
  vm_compute. reflexivity.
Defined.

(** *** What the checks leave alone *)

Lemma same_outside_refl s : same_outside s s.
Proof. repeat split; auto. Qed.

Lemma same_outside_trans s1 s2 s3 :
  same_outside s1 s2 → same_outside s2 s3 → same_outside s1 s3.
Proof.
  intros (Hg1 & Hr1 & He1) (Hg2 & Hr2 & He2). repeat split; try congruence.
  intros k Hk. rewrite He2, He1 by exact Hk. reflexivity.
Qed.

Lemma contained_bind {A B} (m : M A) (k : A → M B) :
  contained m → (∀ a, contained (k a)) → contained (m ≫= k).
Proof.
  intros Hm Hk s. unfold mbind, M_bind. specialize (Hm s).
  destruct (value (m s)) as [a|e]; cbn [after]; [|exact Hm].
  eapply same_outside_trans; [exact Hm|apply Hk].
Qed.

Lemma contained_ret {A} (a : A) : contained (mret a).
Proof. intros s. apply same_outside_refl. Qed.

Lemma contained_raise {A} e : contained (raise e : M A).
Proof. intros s. apply same_outside_refl. Qed.

Lemma contained_answer {A} (o : outcome A) : contained (answer o).
Proof. intros s. apply same_outside_refl. Qed.

Lemma contained_print line : contained (print line).
Proof. intros s. apply same_outside_refl. Qed.

Lemma contained_get_sys : contained get_sys.
Proof. intros s. apply same_outside_refl. Qed.

Lemma contained_prepare n : contained (prepare n).
Proof. intros s. apply same_outside_refl. Qed.

Lemma contained_spawn w p : contained (spawn w p).
Proof. intros s. repeat split; auto. Qed.

Lemma contained_decode b : contained (decode_utf8 b).
Proof. unfold decode_utf8. destruct (Py.valid_utf8 b); intros s; apply same_outside_refl. Qed.

Lemma contained_set_result_text c t : contained (set_result_text c t).
Proof.
  unfold set_result_text. destruct (result c); intros s; apply same_outside_refl.
Qed.

Lemma contained_setenv k v : k ∈ kconfig_vars → contained (setenv k v).
Proof.
  intros Hk s. repeat split; auto. intros k' Hk'. cbn.
  apply lookup_insert_ne. intros ->. contradiction.
Qed.

Lemma contained_check_output w args sh : contained (check_output w args sh).
Proof.
  unfold check_output. apply contained_bind; [apply contained_spawn|].
  intros c. case_bool_decide; [apply contained_ret|apply contained_raise].
Qed.

Lemma contained_try {A} (m : M A) handler :
  contained m → (∀ rc out, contained (handler rc out)) →
  contained (try_CalledProcessError m handler).
Proof.
  intros Hm Hh s. unfold try_CalledProcessError. specialize (Hm s).
  destruct (value (m s)) as [a|e]; [exact Hm|].
  destruct e; try exact Hm. cbn [after].
  eapply same_outside_trans; [exact Hm|apply Hh].
Qed.

Ltac contained :=
  repeat first
    [ apply contained_ret | apply contained_raise | apply contained_answer
    | apply contained_print | apply contained_get_sys | apply contained_prepare
    | apply contained_spawn | apply contained_decode | apply contained_set_result_text
    | apply contained_check_output
    | apply contained_setenv; unfold kconfig_vars;
      solve [repeat (apply list_elem_of_here || apply list_elem_of_further)]
    | apply contained_bind; [|intros ?]
    | apply contained_try; [|intros ? ?]
    | match goal with
      | |- contained (if ?b then _ else _) => destruct b
      | |- contained (match ?x with _ => _ end) => destruct x
      end ].

Lemma checkpatch_contained w commit_range : contained (CheckPatch.run w commit_range).
Proof. unfold CheckPatch.run, CheckPatch.on_error, Popen. contained. Qed.

Lemma kconfig_contained w commit_range : contained (KconfigCheck.run w commit_range).
Proof. unfold KconfigCheck.run. contained. Qed.

Lemma documentation_contained w commit_range : contained (Documentation.run w commit_range).
Proof. unfold Documentation.run. contained. Qed.

Lemma gitlint_contained w commit_range : contained (GitLint.run w commit_range).
Proof. unfold GitLint.run, Popen. contained. Qed.

(** The checks keep to themselves: whatever the world answers, and whether
    it returns or raises, a run of the style, Kconfig, documentation or
    commit-message check leaves GitHub and the reports alone and changes no
    environment variable but the five that the Kconfig check sets; so the
    token and [ZEPHYR_BASE] are as they were. *)
Theorem checks_keep_to_themselves test w commit_range s :
  test ∈ Ex.checks4 →
  let r := run test w commit_range s in
  gh (after r) = gh s
  ∧ reports (after r) = reports s
  ∧ (∀ k, k ∉ kconfig_vars → environ (after r) !! k = environ s !! k)
  ∧ ("GH_TOKEN" ∈ dom (environ (after r)) ↔ "GH_TOKEN" ∈ dom (environ s)).
Proof.
  intros Hin. cbv zeta.
  assert (Hsame : same_outside s (after (run test w commit_range s))).
  { unfold Ex.checks4 in Hin. repeat (apply elem_of_cons in Hin as [->|Hin]).
    - apply checkpatch_contained.
    - apply kconfig_contained.
    - apply documentation_contained.
    - apply gitlint_contained.
    - apply elem_of_nil in Hin. contradiction. }
  destruct Hsame as (Hgh & Hreports & Henv).
  split; [exact Hgh|]. split; [exact Hreports|]. split; [exact Henv|].
  rewrite !elem_of_dom, Henv; [reflexivity|].
  unfold kconfig_vars. intros Hk.
  repeat (apply elem_of_cons in Hk as [Hk|Hk]; [discriminate|]).
  apply elem_of_nil in Hk. exact Hk.
Qed.

Lemma checks_keep_to_themselves_witness :
  KconfigCheck.class ∈ Ex.checks4
  ∧ ("GH_TOKEN" ∈ dom (environ (after (KconfigCheck.run Ex.zephyr "HEAD~1.." Ex.zephyr_env)))
     ↔ "GH_TOKEN" ∈ dom (environ Ex.zephyr_env)).
Proof.
  assert (Hin : KconfigCheck.class ∈ Ex.checks4).
  { apply list_elem_of_further, list_elem_of_here. }
  split; [exact Hin|].
  exact (proj2 (proj2 (proj2 (checks_keep_to_themselves KconfigCheck.class Ex.zephyr
                                "HEAD~1.." Ex.zephyr_env Hin)))).
Defined.

(** *** What the checks report *)

Lemma bind_quiet {A B} (m : M A) (k : A → M B) s a s' :
  m s = mkRun [] s' (Returned a) → (m ≫= k) s = k a s'.
Proof.
  intros H. unfold mbind, M_bind. rewrite H. cbn [printed after value app].
  apply run_eta.
Qed.

Lemma prepare_then {A} test_name (k : MyCase → M A) s r :
  k (mkCase test_name (Some "Guidelines") None None) s = r →
  (prepare test_name ≫= k) s
  = mkRun (("Running " +:+ test_name +:+ " tests...") :: printed r) (after r) (value r).
Proof. intros <-. reflexivity. Qed.

Ltac step := erewrite bind_returned by reflexivity; cbn [printed after value].

(** In a Zephyr tree whose Kconfig files load, the Kconfig check fails
    exactly when some warning mentions an undefined symbol; the text of the
    failure is these warnings alone, in order, three line feeds apart.  The
    check starts no process and sets its five variables. *)
Theorem kconfig_fails_on_undefined_symbols w commit_range s base warnings :
  environ s !! "ZEPHYR_BASE" = Some base →
  path_exists w (path_join base "scripts/kconfig") = true →
  import_kconfiglib w = None →
  kconfig_warnings w = Returned warnings →
  let r := KconfigCheck.run w commit_range s in
  let undef := List.filter (Py.contains "undefined symbol") warnings in
  value r
  = Returned
      (if bool_decide (undef = []) then mkCase "Kconfig" (Some "Guidelines") None None
       else mkCase "Kconfig" (Some "Guidelines") None
              (Some (set_text (Failure "undefined Kconfig symbols" "failure")
                              (Py.join (Py.NL +:+ Py.NL +:+ Py.NL) undef))))
  ∧ procs (after r) = procs s
  ∧ environ (after r)
    = <["KCONFIG_STRICT" := "y"]>
        (<["ARCH" := "*"]>
           (<["BOARD_DIR" := "boards/*/*"]>
              (<["SOC_DIR" := "soc/"]> (<["srctree" := base]> (environ s))))).
Proof.
  intros Hbase Hpath Himport Hwarn. cbv zeta. unfold KconfigCheck.run.
  erewrite bind_returned by (rewrite prepare_run; reflexivity).
  rewrite prepare_run. cbn [printed after value].
  step. cbn [get_sys printed after value]. rewrite Hbase, Hpath, Himport. cbn [negb].
  step. step. step. step. step. step.
  erewrite bind_returned by (unfold answer; cbn [value]; exact Hwarn).
  cbn [answer setenv mret M_ret printed after value environ procs].
  destruct (decide (List.filter (Py.contains "undefined symbol") warnings = []))
    as [Hnone|Hsome].
  - rewrite bool_decide_eq_false_2 by (intros Hne; exact (Hne Hnone)).
    rewrite bool_decide_eq_true_2 by exact Hnone. cbn. auto.
  - rewrite bool_decide_eq_true_2 by exact Hsome.
    rewrite bool_decide_eq_false_2 by exact Hsome. cbn. auto.
Qed.

Lemma kconfig_fails_on_undefined_symbols_witness :
  environ Ex.zephyr_env !! "ZEPHYR_BASE" = Some "/zephyr"
  ∧ path_exists Ex.zephyr (path_join "/zephyr" "scripts/kconfig") = true
  ∧ import_kconfiglib Ex.zephyr = None
  ∧ kconfig_warnings Ex.zephyr
    = Returned ["warning: undefined symbol FOO"; "warning: style";
                "warning: undefined symbol BAR"]
  ∧ (r ← value_of (KconfigCheck.run Ex.zephyr "HEAD~1.." Ex.zephyr_env); result r)
    = Some (set_text (Failure "undefined Kconfig symbols" "failure")
              ("warning: undefined symbol FOO" +:+ Py.NL +:+ Py.NL +:+ Py.NL
               +:+ "warning: undefined symbol BAR")).
Proof.
  assert (Hbase : environ Ex.zephyr_env !! "ZEPHYR_BASE" = Some "/zephyr")
    by (vm_compute; reflexivity).
  split; [exact Hbase|]. split; [reflexivity|]. split; [reflexivity|].
  split; [reflexivity|].
  unfold value_of.
  rewrite (proj1 (kconfig_fails_on_undefined_symbols Ex.zephyr "HEAD~1.." Ex.zephyr_env
                    "/zephyr" _ Hbase eq_refl eq_refl eq_refl)).
  vm_compute. reflexivity.
Defined.

(** Outside a Zephyr tree the Kconfig check is skipped, and in a tree
    without [scripts/kconfig] it is an error with no text; either way it
    says so at once: nothing is imported, no variable is set, the world is
    as it was. *)
Theorem kconfig_needs_a_zephyr_tree w commit_range s :
  (environ s !! "ZEPHYR_BASE" = None →
   KconfigCheck.run w commit_range s
   = mkRun ["Running Kconfig tests..."] s
           (Returned (mkCase "Kconfig" (Some "Guidelines") None
                        (Some (Skipped "Not a Zephyr tree" "skipped")))))
  ∧ (∀ base,
       environ s !! "ZEPHYR_BASE" = Some base →
       path_exists w (path_join base "scripts/kconfig") = false →
       KconfigCheck.run w commit_range s
       = mkRun ["Running Kconfig tests..."] s
               (Returned (mkCase "Kconfig" (Some "Guidelines") None
                            (Some (Error "Can't find Kconfig" "error"))))).
Proof.
  split.
  - intros Hbase. unfold KconfigCheck.run.
    erewrite bind_returned by (rewrite prepare_run; reflexivity).
    rewrite prepare_run. cbn [printed after value].
    step. cbn [get_sys printed after value]. rewrite Hbase. reflexivity.
  - intros base Hbase Hpath. unfold KconfigCheck.run.
    erewrite bind_returned by (rewrite prepare_run; reflexivity).
    rewrite prepare_run. cbn [printed after value].
    step. cbn [get_sys printed after value]. rewrite Hbase, Hpath. reflexivity.
Qed.

Lemma kconfig_needs_a_zephyr_tree_witness :
  environ Ex.with_token !! "ZEPHYR_BASE" = None
  ∧ KconfigCheck.run Ex.zephyr "HEAD~1.." Ex.with_token
    = mkRun ["Running Kconfig tests..."] Ex.with_token (Returned Ex.kconfig_skipped).
Proof.
  assert (Hbase : environ Ex.with_token !! "ZEPHYR_BASE" = None)
    by (vm_compute; reflexivity).
  split; [exact Hbase|].
  exact (proj1 (kconfig_needs_a_zephyr_tree Ex.zephyr "HEAD~1.." Ex.with_token) Hbase).
Defined.

(** The documentation check passes, without reading it, when
    [doc.warnings] is missing or empty.  Otherwise the file is read: a
    content that is valid UTF-8 makes the check an error with this content
    as text, any other content raises [UnicodeDecodeError], and a fault of
    the read leaves the check as it is.  The world stays as it was. *)
Theorem documentation_fails_on_a_warnings_file w commit_range s :
  Documentation.run w commit_range s
  = mkRun ["Running Documentation tests..."] s
      (if path_exists w "doc.warnings" && (0 <? getsize w "doc.warnings")%nat
       then match read_bytes w "doc.warnings" with
            | Returned log =>
              if Py.valid_utf8 log
              then Returned (mkCase "Documentation" (Some "Guidelines") None
                               (Some (set_text (Error "Documentation Issues" "failure")
                                               log)))
              else Raised UnicodeDecodeError
            | Raised e => Raised e
            end
       else Returned (mkCase "Documentation" (Some "Guidelines") None None)).
Proof.
  unfold Documentation.run.
  erewrite bind_returned by (rewrite prepare_run; reflexivity).
  rewrite prepare_run. cbn [printed after value].
  unfold Documentation.DOCS_WARNING_FILE.
  destruct (path_exists w "doc.warnings" && (0 <? getsize w "doc.warnings")%nat);
    [|reflexivity].
  unfold answer, mbind, M_bind. cbn [printed after value].
  destruct (read_bytes w "doc.warnings") as [log|e]; [|reflexivity].
  cbn [printed after value]. unfold decode_utf8.
  destruct (Py.valid_utf8 log); reflexivity.
Qed.

Lemma documentation_fails_on_a_warnings_file_witness :
  (status_of <$> value_of (Documentation.run Ex.warned "HEAD~1.." Ex.no_token))
  = Some Errored
  ∧ (status_of <$> value_of (Documentation.run Ex.quiet "HEAD~1.." Ex.no_token))
    = Some Passed.
Proof.
  rewrite (documentation_fails_on_a_warnings_file Ex.warned "HEAD~1.." Ex.no_token).
  rewrite (documentation_fails_on_a_warnings_file Ex.quiet "HEAD~1.." Ex.no_token).
  split; reflexivity.
Defined.

(** Once gitlint has run to its end, the commit-message check passes when
    the exit code is 0, whatever gitlint printed.  With any other exit code
    the output is decoded: valid UTF-8 makes the check a failure with the
    output as text, an empty output included, and any other output raises
    [UnicodeDecodeError]. *)
Theorem gitlint_fails_on_any_nonzero_exit w commit_range s proc :
  launch w (mkProc ["gitlint --commits " +:+ commit_range] true) = Returned proc →
  GitLint.run w commit_range s
  = mkRun ["Running Gitlint tests..."]
      (add_proc s (mkProc ["gitlint --commits " +:+ commit_range] true))
      (if bool_decide (returncode proc = 0)
       then Returned (mkCase "Gitlint" (Some "Guidelines") None None)
       else if Py.valid_utf8 (output proc)
            then Returned (mkCase "Gitlint" (Some "Guidelines") None
                             (Some (set_text
                                      (Failure "commit message syntax issues" "failure")
                                      (output proc))))
            else Raised UnicodeDecodeError).
Proof.
  intros Hlaunch. unfold GitLint.run.
  erewrite bind_returned by (rewrite prepare_run; reflexivity).
  rewrite prepare_run. cbn [printed after value]. unfold Popen.
  erewrite bind_returned by (rewrite spawn_run; exact Hlaunch).
  rewrite spawn_run. cbn [printed after value].
  destruct (decide (returncode proc = 0)) as [Hzero|Hcode].
  - rewrite bool_decide_eq_false_2 by (intros Hne; exact (Hne Hzero)).
    rewrite bool_decide_eq_true_2 by exact Hzero. reflexivity.
  - rewrite bool_decide_eq_true_2 by exact Hcode.
    rewrite bool_decide_eq_false_2 by exact Hcode.
    cbn [GitLint.ne_str]. unfold decode_utf8, mbind, M_bind.
    destruct (Py.valid_utf8 (output proc)); reflexivity.
Qed.

Lemma gitlint_fails_on_any_nonzero_exit_witness :
  (r ← value_of (GitLint.run Ex.failing_tools "HEAD~1.." Ex.no_token); result r)
  = Some (set_text (Failure "commit message syntax issues" "failure") "").
Proof.
  rewrite (gitlint_fails_on_any_nonzero_exit Ex.failing_tools "HEAD~1.." Ex.no_token
             (mkCompleted 1 "") eq_refl).
  reflexivity.
Defined.

(** Once git and checkpatch have run to their end, the style check leaves
    the case as it was (passed, or skipped without the script) when
    checkpatch exits with 0, whatever it printed.  With any other exit code
    the output is decoded: output that is not valid UTF-8 raises
    [UnicodeDecodeError]; otherwise the check fails exactly when the output
    holds a match of the error pattern, and the failure carries the whole
    output. *)
Theorem checkpatch_fails_only_on_counted_errors w commit_range s diff done :
  launch w (CheckPatch.diff_proc commit_range) = Returned diff →
  launch w (CheckPatch.checkpatch_proc (cwd w +:+ "/scripts/checkpatch.pl"))
  = Returned done →
  let before :=
    if path_exists w (cwd w +:+ "/scripts/checkpatch.pl")
    then mkCase "checkpatch" (Some "Guidelines") None None
    else mkCase "checkpatch" (Some "Guidelines") None
           (Some (Skipped "checkpatch script not found" "skipped")) in
  value (CheckPatch.run w commit_range s)
  = if bool_decide (returncode done = 0) then Returned before
    else if Py.valid_utf8 (output done)
         then Returned
                (if Py.re_search_errors (output done)
                 then set_result before
                        (set_text (Failure "Checkpatch issues" "failure") (output done))
                 else before)
         else Raised UnicodeDecodeError.
Proof.
  intros Hdiff Hdone. cbv zeta. unfold CheckPatch.run.
  erewrite bind_returned by (rewrite prepare_run; reflexivity).
  rewrite prepare_run. cbn [printed after value].
  unfold Popen. fold (CheckPatch.diff_proc commit_range).
  erewrite bind_returned by (rewrite spawn_run; exact Hdiff).
  rewrite spawn_run. cbn [printed after value].
  unfold try_CalledProcessError. rewrite check_output_then. cbn [printed after value].
  fold (CheckPatch.checkpatch_proc (cwd w +:+ "/scripts/checkpatch.pl")).
  rewrite Hdone.
  destruct (decide (returncode done = 0)) as [Hzero|Hcode].
  - rewrite !bool_decide_eq_true_2 by exact Hzero.
    cbn [value]. destruct (path_exists w _); reflexivity.
  - rewrite !bool_decide_eq_false_2 by exact Hcode. cbn [printed after value].
    unfold CheckPatch.on_error, decode_utf8.
    destruct (Py.valid_utf8 (output done)); [|reflexivity].
    step. destruct (Py.re_search_errors (output done)).
    + step. destruct (path_exists w _); reflexivity.
    + destruct (path_exists w _); reflexivity.
Qed.

Lemma checkpatch_fails_only_on_counted_errors_witness :
  (status_of <$> value_of (CheckPatch.run Ex.failing_tools "HEAD~1.." Ex.no_token))
  = Some Passed.
Proof.
  unfold value_of.
  rewrite (checkpatch_fails_only_on_counted_errors Ex.failing_tools "HEAD~1.."
             Ex.no_token (mkCompleted 1 "") (mkCompleted 1 "") eq_refl eq_refl).
  reflexivity.
Defined.

(** *** Strings *)

Lemma str_cons_app x a b : String x a +:+ b = String x (a +:+ b).
Proof. reflexivity. Qed.

Lemma str_nil_app b : "" +:+ b = b.
Proof. reflexivity. Qed.

Lemma str_app_assoc a b c : (a +:+ b) +:+ c = a +:+ (b +:+ c).
Proof.
  induction a as [|x a IH]; [reflexivity|].
  rewrite !str_cons_app, IH. reflexivity.
Qed.

Lemma str_app_nil_r a : a +:+ "" = a.
Proof.
  induction a as [|x a IH]; [reflexivity|]. rewrite str_cons_app, IH. reflexivity.
Qed.

Lemma prefix_split a : ∀ b, String.prefix a b = true ↔ ∃ later, b = a +:+ later.
Proof.
  induction a as [|x a IH]; intros b.
  - split; [intros _; exists b; reflexivity|]. intros _. destruct b; reflexivity.
  - destruct b as [|y b]; simpl.
    + split; [discriminate|]. intros [later H]. discriminate.
    + destruct (Ascii.ascii_dec x y) as [->|Hne].
      * rewrite IH. split; intros [later H]; exists later; [rewrite H; reflexivity|].
        rewrite str_cons_app in H. inversion H. reflexivity.
      * split; [discriminate|]. intros [later H]. rewrite str_cons_app in H.
        inversion H. congruence.
Qed.

Lemma contains_occurs needle : ∀ hay,
  Py.contains needle hay = true ↔ occurs_in needle hay.
Proof.
  unfold occurs_in. induction hay as [|y hay IH]; cbn [Py.contains].
  - rewrite orb_false_r, prefix_split. split.
    + intros [later H]. exists "", later. exact H.
    + intros (before & later & H). destruct before; [exists later; exact H|discriminate].
  - rewrite orb_true_iff, prefix_split, IH. split.
    + intros [[later H] | (before & later & H)].
      * exists "", later. exact H.
      * exists (String y before), later. rewrite str_cons_app, H. reflexivity.
    + intros (before & later & H). destruct before as [|x before].
      * left. exists later. exact H.
      * right. rewrite str_cons_app in H. inversion H. exists before, later. reflexivity.
Qed.

Lemma skip_digits_split r :
  ∃ ds, r = ds +:+ Py.skip_digits r ∧ all_digits ds = true.
Proof.
  induction r as [|a r (ds & Hr & Hds)]; simpl.
  - exists "". auto.
  - destruct (Py.is_digit a) eqn:Ha.
    + exists (String a ds). rewrite str_cons_app, <- Hr. simpl. rewrite Ha, Hds. auto.
    + exists "". auto.
Qed.

Lemma skip_digits_app ds a r :
  all_digits ds = true → Py.is_digit a = false →
  Py.skip_digits (ds +:+ String a r) = String a r.
Proof.
  intros Hds Ha. induction ds as [|d ds IH]; simpl in *.
  - rewrite ?str_nil_app. simpl. rewrite Ha. reflexivity.
  - apply andb_true_iff in Hds as [Hd Hds]. rewrite ?str_cons_app. simpl.
    rewrite Hd. apply IH. exact Hds.
Qed.

(** The error pattern of the style check, as the search decides it: the
    text holds a digit from 1 to 9, then any digits, then " errors," .  So
    "0 errors," alone is no match, and "10 errors," is one. *)
Theorem error_pattern_is_a_counted_error s :
  Py.re_search_errors s = true
  ↔ ∃ before d ds later,
      s = before +:+ String d (ds +:+ " errors," +:+ later)
      ∧ Py.is_nonzero_digit d = true
      ∧ all_digits ds = true.
Proof.
  assert (Hat : ∀ s, Py.match_errors_at s = true
    ↔ ∃ d ds later, s = String d (ds +:+ " errors," +:+ later)
                    ∧ Py.is_nonzero_digit d = true ∧ all_digits ds = true).
  { intros s0. destruct s0 as [|d r]; simpl.
    - split; [discriminate|]. intros (? & ? & ? & H & _). discriminate.
    - rewrite andb_true_iff, prefix_split. split.
      + intros (Hd & later & Hr). destruct (skip_digits_split r) as (ds & Hsplit & Hds).
        exists d, ds, later. rewrite Hr in Hsplit. rewrite Hsplit at 1. auto.
      + intros (d' & ds & later & H & Hd & Hds). inversion H; subst.
        split; [exact Hd|]. exists later.
        apply (skip_digits_app ds); [exact Hds|reflexivity]. }
  induction s as [|a s IH]; cbn [Py.re_search_errors].
  - rewrite orb_false_r, Hat. split.
    + intros (d & ds & later & H & _). discriminate.
    + intros (before & d & ds & later & H & _). destruct before; discriminate.
  - rewrite orb_true_iff, Hat, IH. split.
    + intros [(d & ds & later & H & Hd & Hds) | (before & d & ds & later & H & Hd & Hds)].
      * exists "", d, ds, later. auto.
      * exists (String a before), d, ds, later. simpl. rewrite H. auto.
    + intros (before & d & ds & later & H & Hd & Hds). destruct before as [|x before].
      * left. exists d, ds, later. auto.
      * right. inversion H. exists before, d, ds, later. auto.
Qed.

Lemma first_marked_first comments : ∀ i body,
  comments !! i = Some body →
  occurs_in marker body →
  (∀ j earlier, (j < i)%nat → comments !! j = Some earlier → ¬ occurs_in marker earlier) →
  first_marked comments = Some i.
Proof.
  induction comments as [|c rest IH]; intros i body Hi Hocc Hfirst; [discriminate|].
  cbn [first_marked]. destruct (Py.contains marker c) eqn:Hc.
  - destruct i as [|i]; [reflexivity|].
    exfalso. apply (Hfirst 0%nat c); [lia|reflexivity|]. apply contains_occurs. exact Hc.
  - destruct i as [|i].
    + inversion Hi; subst. apply contains_occurs in Hocc. congruence.
    + rewrite (IH i body Hi Hocc); [reflexivity|].
      intros j earlier Hj Hlook. apply (Hfirst (S j) earlier); [lia|exact Hlook].
Qed.

Lemma first_marked_nowhere comments :
  (∀ i body, comments !! i = Some body → ¬ occurs_in marker body) →
  first_marked comments = None.
Proof.
  induction comments as [|c rest IH]; intros Hno; [reflexivity|].
  cbn [first_marked]. destruct (Py.contains marker c) eqn:Hc.
  - exfalso. apply (Hno 0%nat c); [reflexivity|]. apply contains_occurs. exact Hc.
  - rewrite IH; [reflexivity|]. intros i body Hi. apply (Hno (S i) body). exact Hi.
Qed.

(** A comment is taken for the synchronizer's own as soon as the marker
    phrase occurs anywhere in its body.  The search over the comments of a
    thread edits the first comment that holds the phrase: its body becomes
    the new comment, every other comment and every other thread is as it
    was, and the search answers that it has commented.  When no comment
    holds the phrase the search changes nothing and answers that it has
    not. *)
Theorem a_comment_with_the_phrase_is_edited repo pr comment s :
  (∀ i body,
     thread_of (gh s) repo pr !! i = Some body →
     occurs_in marker body →
     (∀ j earlier, (j < i)%nat → thread_of (gh s) repo pr !! j = Some earlier →
                   ¬ occurs_in marker earlier) →
     edit_marked repo pr (thread_of (gh s) repo pr) 0 comment s
     = mkRun []
         (mkSys (environ s) (procs s)
                (mkGitHub (statuses (gh s))
                          (<[(repo, pr) := <[i := comment]> (thread_of (gh s) repo pr)]>
                             (threads (gh s))))
                (reports s))
         (Returned true))
  ∧ ((∀ i body, thread_of (gh s) repo pr !! i = Some body → ¬ occurs_in marker body) →
     edit_marked repo pr (thread_of (gh s) repo pr) 0 comment s
     = mkRun [] s (Returned false)).
Proof.
  pose proof (edit_marked_run repo pr comment (thread_of (gh s) repo pr) [] s eq_refl)
    as Hrun.
  cbn [length app] in Hrun. rewrite replace_marked_first in Hrun. split.
  - intros i body Hi Hocc Hfirst.
    rewrite (first_marked_first _ i body Hi Hocc Hfirst) in Hrun. exact Hrun.
  - intros Hno. rewrite (first_marked_nowhere _ Hno) in Hrun. exact Hrun.
Qed.

Lemma a_comment_with_the_phrase_is_edited_witness :
  thread_of
    (gh (after (edit_marked "zephyr/ci" 7 (thread_of (gh Ex.quoted) "zephyr/ci" 7) 0
                  (comment_of Ex.suite4) Ex.quoted)))
    "zephyr/ci" 7
  = [comment_of Ex.suite4; marker +:+ ": an earlier run"].
Proof.
  rewrite (proj1 (a_comment_with_the_phrase_is_edited "zephyr/ci" 7
                    (comment_of Ex.suite4) Ex.quoted)
             0%nat "> Found the following issues, please fix and resubmit: I did, see above").
  - vm_compute. reflexivity.
  - vm_compute. reflexivity.
  - exists "> ", ": I did, see above". reflexivity.
  - intros j earlier Hj. lia.
Defined.

Lemma comment_fold suite : ∀ comment,
  fold_left (λ comment case,
               if reported case then comment +:+ comment_section case else comment)
            suite comment
  = comment +:+ fold_right (λ case rest, comment_section case +:+ rest) ""
                           (List.filter reported suite).
Proof.
  induction suite as [|c suite IH]; intros comment; simpl.
  - rewrite str_app_nil_r. reflexivity.
  - rewrite IH. destruct (reported c); [|reflexivity].
    simpl. rewrite str_app_assoc. reflexivity.
Qed.

(** The comment that a publication writes is the opening phrase followed by
    one section per reported result, in the order of the suite; passed and
    skipped results leave no trace in it.  The loop over the cases adds
    these sections to the comment it is given and counts them; the comment
    then replaces the first comment of the thread that carries the marker,
    or is appended when there is none. *)
Theorem comment_has_one_section_per_reported_result repo pr sha suite docs s :
  "GH_TOKEN" ∈ dom (environ s) →
  covers docs suite →
  pr ≠ 0 →
  (0 < count_errors suite)%nat →
  let sections :=
    fold_right (λ case rest, comment_section case +:+ rest) ""
               (List.filter reported suite) in
  let t := thread_of (gh s) repo pr in
  (∀ comment n,
     value (for_each (report_case repo sha docs) suite (comment, n) s)
     = Returned (comment +:+ sections, (n + length (List.filter reported suite))%nat))
  ∧ thread_of (gh (after (report_to_github (Some repo) pr (Some sha) suite docs s)))
              repo pr
    = match first_marked t with
      | Some i => <[i := (marker +:+ ":" +:+ Py.NL +:+ Py.NL) +:+ sections]> t
      | None => (t ++ [(marker +:+ ":" +:+ Py.NL +:+ Py.NL) +:+ sections])%list
      end.
Proof.
  intros Htoken Hcov Hpr Hcount. cbv zeta. split.
  - intros comment n. rewrite report_loop_covered by exact Hcov. cbn [value].
    rewrite comment_fold, count_from. reflexivity.
  - rewrite report_to_github_run by assumption. cbn [after].
    rewrite published_thread by assumption.
    rewrite merge_or_create_first. unfold comment_of. rewrite comment_fold.
    reflexivity.
Qed.

Lemma comment_has_one_section_per_reported_result_witness :
  thread_of
    (gh (after (report_to_github (Some "zephyr/ci") 7 (Some "abc123") Ex.suite4 Ex.docs4
                  Ex.with_token)))
    "zephyr/ci" 7
  = [(marker +:+ ":" +:+ Py.NL +:+ Py.NL)
     +:+ comment_section Ex.docs_error +:+ comment_section Ex.gitlint_failed].
Proof.
  assert (H7 : 7 ≠ 0) by discriminate.
  assert (Hcount : (0 < count_errors Ex.suite4)%nat) by (vm_compute; lia).
  rewrite (proj2 (comment_has_one_section_per_reported_result "zephyr/ci" 7 "abc123"
                    Ex.suite4 Ex.docs4 Ex.with_token with_token_has_token docs4_covers
                    H7 Hcount)).
  vm_compute. reflexivity.
Defined.

(** *** The commits of a range *)

Lemma graphic_head a r :
  Py.byte_in 33 126 a = true →
  Py.space_len (String a r) = 0%nat ∧ Py.byte_in 0 127 a = true.
Proof.
  intros H. unfold Py.byte_in in H. apply andb_true_iff in H as [Hlo Hhi].
  apply Nat.leb_le in Hlo. apply Nat.leb_le in Hhi.
  assert (Hin : ∀ lo hi, (hi < 33 ∨ 126 < lo)%nat → Py.byte_in lo hi a = false).
  { intros lo hi Hout. unfold Py.byte_in. apply andb_false_iff.
    rewrite !Nat.leb_gt. lia. }
  assert (His : ∀ n, (126 < n)%nat → Py.byte_is n a = false).
  { intros n Hn. unfold Py.byte_is. apply Nat.eqb_neq. lia. }
  split.
  - unfold Py.space_len.
    rewrite (Hin 9%nat 13%nat), (Hin 28%nat 32%nat) by lia.
    rewrite (His 194%nat), (His 225%nat), (His 226%nat), (His 227%nat) by lia.
    destruct r as [|b [|c r]]; reflexivity.
  - unfold Py.byte_in. apply andb_true_iff. rewrite !Nat.leb_le. lia.
Qed.

Lemma split_scan_word x : ∀ rest word,
  graphic x = true →
  Py.split_scan (x +:+ rest) 0 word = Py.split_scan rest 0 (word +:+ x).
Proof.
  induction x as [|a x IH]; intros rest word Hx.
  - rewrite str_nil_app, str_app_nil_r. reflexivity.
  - cbn [graphic] in Hx. apply andb_true_iff in Hx as [Ha Hx].
    rewrite str_cons_app. cbn [Py.split_scan].
    rewrite (proj1 (graphic_head a (x +:+ rest) Ha)).
    rewrite IH by exact Hx. rewrite str_app_assoc. reflexivity.
Qed.

Lemma split_scan_line rest word :
  Py.split_scan (Py.NL +:+ rest) 0 word
  = (Py.flush word ++ Py.split_scan rest 0 "")%list.
Proof. reflexivity. Qed.

Lemma split_rev_list_output shas :
  Forall (λ sha, sha ≠ "" ∧ graphic sha = true) shas →
  Py.split (rev_list_output shas) = shas
  ∧ Py.valid_utf8 (rev_list_output shas) = true.
Proof.
  unfold Py.split. induction 1 as [|sha shas [Hne Hg] _ [IHs IHv]]; [split; reflexivity|].
  cbn [rev_list_output fold_right]. fold (rev_list_output shas). split.
  - rewrite split_scan_word by exact Hg. rewrite split_scan_line, IHs.
    rewrite str_nil_app. unfold Py.flush. rewrite bool_decide_eq_false_2 by exact Hne.
    reflexivity.
  - clear IHs Hne. induction sha as [|a sha IH].
    + rewrite str_nil_app. exact IHv.
    + cbn [graphic] in Hg. apply andb_true_iff in Hg as [Ha Hg].
      rewrite str_cons_app. cbn [Py.valid_utf8].
      rewrite (proj2 (graphic_head a "" Ha)). apply IH. exact Hg.
Qed.

Lemma sh_git_run w args s :
  sh_git w args s
  = mkRun [] (add_proc s (mkProc ("git" :: args) false))
          (match launch w (mkProc ("git" :: args) false) with
           | Returned c =>
             if bool_decide (returncode c = 0) then Returned (output c)
             else Raised (OtherError "ErrorReturnCode")
           | Raised e => Raised e
           end).
Proof.
  unfold sh_git, mbind, M_bind. rewrite spawn_run. cbn [printed after value].
  destruct (launch w _) as [c|e]; [|reflexivity].
  destruct (bool_decide (returncode c = 0)); reflexivity.
Qed.

Lemma sh_git_ok w args s out :
  launch w (mkProc ("git" :: args) false) = Returned (mkCompleted 0 out) →
  sh_git w args s = mkRun [] (add_proc s (mkProc ("git" :: args) false)) (Returned out).
Proof. intros H. rewrite sh_git_run, H. reflexivity. Qed.

Lemma split_scan_no_empty s : ∀ skip word,
  Forall (λ piece, piece ≠ "") (Py.split_scan s skip word).
Proof.
  assert (Hflush : ∀ word, Forall (λ piece, piece ≠ "") (Py.flush word)).
  { intros word. unfold Py.flush. case_bool_decide; [apply Forall_nil_2|].
    apply Forall_cons_2; [assumption|apply Forall_nil_2]. }
  induction s as [|a s IH]; intros skip word; cbn [Py.split_scan]; [apply Hflush|].
  destruct skip as [|k]; [|apply IH].
  destruct (Py.space_len (String a s)); [apply IH|].
  apply Forall_app; split; [apply Hflush|apply IH].
Qed.

(** When git prints the names of the commits one to a line, [get_shas]
    gives exactly these names, in the order of git, and leaves nothing but
    the launch of git behind. *)
Theorem get_shas_gives_the_commits_that_git_lists w refspec s shas :
  Forall (λ sha, sha ≠ "" ∧ graphic sha = true) shas →
  (∀ count, launch w (rev_list count refspec)
            = Returned (mkCompleted 0 (rev_list_output shas))) →
  ∃ count,
    get_shas w refspec s
    = mkRun [] (add_proc s (rev_list count refspec)) (Returned shas).
Proof.
  intros Hshas Hgit. destruct (split_rev_list_output shas Hshas) as [Hsplit Hvalid].
  exists (if Py.contains "." refspec then "-1" else "1").
  unfold get_shas.
  erewrite bind_returned by (erewrite sh_git_ok by apply Hgit; reflexivity).
  erewrite sh_git_ok by apply Hgit.
  cbn [printed after value]. unfold decode_utf8. rewrite Hvalid.
  step. rewrite Hsplit. reflexivity.
Qed.

Lemma get_shas_gives_the_commits_that_git_lists_witness :
  ∃ count,
    get_shas (Ex.scanning ("1f3a9c0b" +:+ Py.NL +:+ "77e2d410" +:+ Py.NL))
             "HEAD~2.." Ex.no_token
    = mkRun [] (add_proc Ex.no_token (rev_list count "HEAD~2.."))
            (Returned ["1f3a9c0b"; "77e2d410"]).
Proof.
  apply (get_shas_gives_the_commits_that_git_lists
           (Ex.scanning ("1f3a9c0b" +:+ Py.NL +:+ "77e2d410" +:+ Py.NL))
           "HEAD~2.." Ex.no_token ["1f3a9c0b"; "77e2d410"]).
  - repeat (apply Forall_cons_2; [split; [discriminate|reflexivity]|]).
    apply Forall_nil_2.
  - intros count. reflexivity.
Defined.

(** [get_shas] asks git for the whole range only when the refspec holds a
    dot, and for one commit otherwise; whatever git does, this one launch
    is all that [get_shas] leaves behind, and it prints nothing. *)
Theorem get_shas_lists_a_range_only_for_a_dotted_refspec w refspec s :
  ∃ count,
    after (get_shas w refspec s) = add_proc s (rev_list count refspec)
    ∧ printed (get_shas w refspec s) = []
    ∧ (occurs_in "." refspec → count = "-1")
    ∧ (¬ occurs_in "." refspec → count = "1").
Proof.
  exists (if Py.contains "." refspec then "-1" else "1"). split; [|split; [|split]].
  - unfold get_shas, mbind, M_bind. rewrite sh_git_run. cbn [printed after value].
    destruct (launch w _) as [c|e]; [|reflexivity].
    destruct (bool_decide (returncode c = 0)); [|reflexivity].
    cbn [printed after value]. unfold decode_utf8.
    destruct (Py.valid_utf8 (output c)); reflexivity.
  - unfold get_shas, mbind, M_bind. rewrite sh_git_run. cbn [printed after value].
    destruct (launch w _) as [c|e]; [|reflexivity].
    destruct (bool_decide (returncode c = 0)); [|reflexivity].
    cbn [printed after value]. unfold decode_utf8.
    destruct (Py.valid_utf8 (output c)); reflexivity.
  - intros Hdot. apply contains_occurs in Hdot. rewrite Hdot. reflexivity.
  - intros Hno. destruct (Py.contains "." refspec) eqn:Hc; [|reflexivity].
    exfalso. apply Hno, contains_occurs. exact Hc.
Qed.

(** Once git has run to its end, [get_shas] raises [ErrorReturnCode]
    exactly when git left with an exit code other than 0; and a list that
    it returns holds no empty name. *)
Theorem get_shas_raises_exactly_when_git_fails w refspec s count c :
  launch w (rev_list count refspec) = Returned c →
  count = (if Py.contains "." refspec then "-1" else "1") →
  (value (get_shas w refspec s) = Raised (OtherError "ErrorReturnCode")
   ↔ returncode c ≠ 0)
  ∧ ∀ shas, value (get_shas w refspec s) = Returned shas →
            returncode c = 0 ∧ Forall (λ sha, sha ≠ "") shas.
Proof.
  intros Hgit ->. unfold get_shas, mbind, M_bind. rewrite sh_git_run.
  fold (rev_list (if Py.contains "." refspec then "-1" else "1") refspec).
  rewrite Hgit. cbn [printed after value].
  destruct (decide (returncode c = 0)) as [H0|Hn].
  - rewrite bool_decide_eq_true_2 by exact H0. cbn [printed after value].
    unfold decode_utf8. destruct (Py.valid_utf8 (output c)); cbn [printed after value].
    + split; [split; [discriminate|intros Hn; contradiction]|].
      intros shas Hret. inversion Hret. split; [exact H0|]. apply split_scan_no_empty.
    + split; [split; [discriminate|intros Hn; contradiction]|].
      intros shas Hret. discriminate.
  - rewrite bool_decide_eq_false_2 by exact Hn. cbn [printed after value].
    split; [split; [intros _; exact Hn|reflexivity]|]. intros shas Hret. discriminate.
Qed.

Lemma get_shas_raises_exactly_when_git_fails_witness :
  value (get_shas Ex.failing_tools "v1.14.0..HEAD" Ex.no_token)
  = Raised (OtherError "ErrorReturnCode").
Proof.
  apply (proj1 (get_shas_raises_exactly_when_git_fails Ex.failing_tools "v1.14.0..HEAD"
                  Ex.no_token "-1" (mkCompleted 1 "") eq_refl eq_refl)).
  discriminate.
Defined.

(** *** The license check *)

Lemma str_app_empty a b : a +:+ b = "" ↔ a = "" ∧ b = "".
Proof.
  split; [|intros [-> ->]; reflexivity].
  destruct a; [auto|]. rewrite str_cons_app. discriminate.
Qed.

Lemma report_fold {A} (g : A → string) (xs : list A) : ∀ report,
  fold_left (λ report x, report +:+ g x) xs report
  = report +:+ fold_right (λ x rest, g x +:+ rest) "" xs.
Proof.
  induction xs as [|x xs IH]; intros report; cbn [fold_left fold_right].
  - rewrite str_app_nil_r. reflexivity.
  - rewrite IH, str_app_assoc. reflexivity.
Qed.

Lemma report_empty {A} (g : A → string) (keep : A → bool) (xs : list A) :
  (∀ x, g x = "" ↔ keep x = true) →
  fold_right (λ x rest, g x +:+ rest) "" xs = "" ↔ forallb keep xs = true.
Proof.
  intros Hg. induction xs as [|x xs IH]; cbn [fold_right forallb]; [tauto|].
  rewrite str_app_empty, andb_true_iff, Hg, IH. tauto.
Qed.

Lemma report_filter {A} (g : A → string) (keep : A → bool) (xs : list A) :
  (∀ x, keep x = true → g x = "") →
  fold_right (λ x rest, g x +:+ rest) "" xs
  = fold_right (λ x rest, g x +:+ rest) "" (List.filter (λ x, negb (keep x)) xs).
Proof.
  intros Hg. induction xs as [|x xs IH]; cbn [fold_right List.filter]; [reflexivity|].
  destruct (keep x) eqn:Hx; cbn [negb fold_right].
  - rewrite (Hg x Hx), str_nil_app. exact IH.
  - rewrite IH. reflexivity.
Qed.

Lemma license_lines_accepted fp lic :
  License.license_lines fp lic = "" ↔ accepted lic = true.
Proof.
  unfold License.license_lines, accepted. rewrite !str_app_empty, andb_true_iff.
  rewrite !bool_decide_eq_true.
  destruct (decide (License.key lic = "apache-2.0")) as [Hk|Hk].
  - rewrite (bool_decide_eq_false_2 (License.key lic ≠ "apache-2.0")) by tauto.
    rewrite (bool_decide_eq_false_2 (License.key lic = "unknown-spdx"))
      by (rewrite Hk; discriminate).
    destruct (decide (License.category lic = "Permissive")) as [Hc|Hc].
    + rewrite bool_decide_eq_false_2 by tauto. tauto.
    + rewrite bool_decide_eq_true_2 by exact Hc. rewrite !str_cons_app.
      split; [intros (_ & H & _); discriminate|tauto].
  - rewrite (bool_decide_eq_true_2 (License.key lic ≠ "apache-2.0")) by exact Hk.
    rewrite !str_cons_app. split; [intros (H & _); discriminate|tauto].
Qed.

Lemma file_lines_in_order f : License.file_lines f = "" ↔ in_order f = true.
Proof.
  unfold License.file_lines, in_order.
  destruct (bool_decide (License.type f = "directory")); [cbn; tauto|].
  destruct (License.examined f); [|cbn; tauto].
  cbn [orb negb]. rewrite str_app_empty, !andb_true_iff, !bool_decide_eq_true.
  assert (Hcopy : (if bool_decide (License.copyrights f = [])
                   then "* " +:+ Py.replace "scancode-files/" "" (License.path f)
                        +:+ " missing copyright." +:+ Py.NL
                   else "") = "" ↔ License.copyrights f ≠ []).
  { case_bool_decide as Hc; [|tauto]. rewrite !str_cons_app.
    split; [discriminate|intros Hn; contradiction]. }
  cbv zeta. rewrite Hcopy. clear Hcopy.
  case_bool_decide as Hl.
  - rewrite Hl, !str_cons_app. split; [intros [H _]; discriminate|].
    intros [[Hn _] _]. contradiction.
  - rewrite report_fold, str_nil_app.
    rewrite (report_empty _ accepted) by (intros lic; apply license_lines_accepted).
    tauto.
Qed.

Lemma report_of_fold files :
  License.report_of files
  = fold_right (λ f rest, License.file_lines f +:+ rest) "" files.
Proof. unfold License.report_of. rewrite report_fold, str_nil_app. reflexivity. Qed.

(** The report of the license check is the lines of the files, one file
    after the other in the order of the scan; it is empty exactly when
    every file is in order, and the files that are in order leave no trace
    in it. *)
Theorem license_report_names_the_files_out_of_order files :
  License.report_of files
  = fold_right (λ f rest, License.file_lines f +:+ rest) "" files
  ∧ (License.report_of files = "" ↔ forallb in_order files = true)
  ∧ License.report_of files
    = License.report_of (List.filter (λ f, negb (in_order f)) files).
Proof.
  split; [apply report_of_fold|]. split.
  - rewrite report_of_fold. apply report_empty. apply file_lines_in_order.
  - rewrite !report_of_fold. apply report_filter.
    intros f Hf. apply file_lines_in_order. exact Hf.
Qed.

Lemma license_scan w s :
  try_CalledProcessError
    (_ ← check_output w [Py.join " " License.cmd] true; mret true)
    (λ _ _, mret false) s
  = mkRun [] (add_proc s scan_proc)
          (match launch w scan_proc with
           | Returned c => Returned (bool_decide (returncode c = 0))
           | Raised (CalledProcessError _ _) => Returned false
           | Raised e => Raised e
           end).
Proof.
  unfold try_CalledProcessError. rewrite check_output_then. fold scan_proc.
  cbn [printed after value].
  destruct (launch w scan_proc) as [c|e].
  - destruct (bool_decide (returncode c = 0)); reflexivity.
  - destruct e; reflexivity.
Qed.

Lemma license_to_the_scan o w commit_range s new_files :
  path_exists w License.scancode = true →
  License.makedirs_fault o = None →
  launch w (diff_added commit_range) = Returned (mkCompleted 0 new_files) →
  Py.valid_utf8 new_files = true →
  new_files ≠ "" →
  License.copy_fault o new_files = None →
  License.run o w commit_range s
  = (let r := License.scan_and_judge o w (mkCase "License" (Some "Guidelines") None None)
                (add_proc s (diff_added commit_range)) in
     mkRun ("Running License tests..." :: printed r) (after r) (value r)).
Proof.
  intros Hpath Hmk Hgit Hvalid Hnew Hcopy.
  unfold License.run. cbv zeta. apply (prepare_then License._name). cbv beta.
  rewrite Hpath. cbn [negb].
  rewrite Hmk. unfold License.fault at 1.
  erewrite bind_quiet by reflexivity.
  erewrite bind_quiet by (apply sh_git_ok, Hgit).
  unfold decode_utf8. rewrite Hvalid.
  erewrite bind_quiet by reflexivity.
  rewrite bool_decide_eq_false_2 by exact Hnew.
  rewrite Hcopy. unfold License.fault.
  erewrite bind_quiet by reflexivity.
  reflexivity.
Qed.

(** Without scancode the license check is skipped at once: git is not
    asked for the new files, no directory is made, nothing is scanned. *)
Theorem license_is_skipped_without_scancode o w commit_range s :
  path_exists w License.scancode = false →
  License.run o w commit_range s
  = mkRun ["Running License tests..."] s
          (Returned (mkCase "License" (Some "Guidelines") None
                       (Some (Skipped "scancode-toolkit not installed" "skipped")))).
Proof.
  intros Hpath. unfold License.run.
  rewrite (prepare_then License._name _ s _ eq_refl). rewrite Hpath. reflexivity.
Qed.

Lemma license_is_skipped_without_scancode_witness :
  status_of <$> value_of (License.run Ex.no_json Ex.quiet "HEAD~1.." Ex.no_token)
  = Some SkippedStatus.
Proof.
  rewrite (license_is_skipped_without_scancode Ex.no_json Ex.quiet "HEAD~1.."
             Ex.no_token eq_refl).
  reflexivity.
Defined.

(** When git names no new file the license check passes without a scan:
    the one process started is git. *)
Theorem license_passes_without_new_files o w commit_range s :
  path_exists w License.scancode = true →
  License.makedirs_fault o = None →
  launch w (diff_added commit_range) = Returned (mkCompleted 0 "") →
  License.run o w commit_range s
  = mkRun ["Running License tests..."] (add_proc s (diff_added commit_range))
          (Returned (mkCase "License" (Some "Guidelines") None None)).
Proof.
  intros Hpath Hmk Hgit. unfold License.run.
  apply (prepare_then License._name _ s
           (mkRun [] (add_proc s (diff_added commit_range))
                  (Returned (mkCase "License" (Some "Guidelines") None None)))).
  cbv beta. rewrite Hpath. cbn [negb]. rewrite Hmk. unfold License.fault.
  erewrite bind_quiet by reflexivity.
  erewrite bind_quiet by (apply sh_git_ok, Hgit).
  reflexivity.
Qed.

Lemma license_passes_without_new_files_witness :
  License.run Ex.no_json (Ex.scanning "") "HEAD~1.." Ex.no_token
  = mkRun ["Running License tests..."] (add_proc Ex.no_token (diff_added "HEAD~1.."))
          (Returned (Ex.passed "License")).
Proof.
  exact (license_passes_without_new_files Ex.no_json (Ex.scanning "") "HEAD~1.."
           Ex.no_token eq_refl eq_refl eq_refl).
Defined.

(** When the scan exits with another code than 0 the license check is an
    error without text, whatever the scan left behind; the files that git
    named were copied and the scan was started, nothing more. *)
Theorem license_is_an_error_when_the_scan_fails o w commit_range s new_files c :
  path_exists w License.scancode = true →
  License.makedirs_fault o = None →
  launch w (diff_added commit_range) = Returned (mkCompleted 0 new_files) →
  Py.valid_utf8 new_files = true →
  new_files ≠ "" →
  License.copy_fault o new_files = None →
  launch w scan_proc = Returned c →
  returncode c ≠ 0 →
  License.run o w commit_range s
  = mkRun ["Running License tests..."]
          (add_proc (add_proc s (diff_added commit_range)) scan_proc)
          (Returned (mkCase "License" (Some "Guidelines") None
                       (Some (Error "Exception when running scancode" "error")))).
Proof.
  intros Hpath Hmk Hgit Hvalid Hnew Hcopy Hscan Hcode.
  rewrite (license_to_the_scan o w commit_range s new_files) by assumption.
  unfold License.scan_and_judge.
  erewrite bind_quiet
    by (rewrite license_scan, Hscan, bool_decide_eq_false_2 by exact Hcode; reflexivity).
  reflexivity.
Qed.

Lemma license_is_an_error_when_the_scan_fails_witness :
  status_of <$> value_of (License.run (Ex.scan [Ex.new_c]) Ex.scan_crashes "HEAD~1.."
                            Ex.no_token)
  = Some Errored.
Proof.
  rewrite (license_is_an_error_when_the_scan_fails (Ex.scan [Ex.new_c]) Ex.scan_crashes
             "HEAD~1.." Ex.no_token ("drivers/new.c" +:+ Py.NL) (mkCompleted 2 "Traceback")
             eq_refl eq_refl eq_refl eq_refl).
  - reflexivity.
  - discriminate.
  - reflexivity.
  - reflexivity.
  - discriminate.
Defined.

(** After a scan that exits with 0, the license check fails exactly when
    some file of the scan is out of order, and the text of the failure is
    the report; with every file in order it passes. *)
Theorem license_fails_exactly_on_a_file_out_of_order
    o w commit_range s new_files out files :
  path_exists w License.scancode = true →
  License.makedirs_fault o = None →
  launch w (diff_added commit_range) = Returned (mkCompleted 0 new_files) →
  Py.valid_utf8 new_files = true →
  new_files ≠ "" →
  License.copy_fault o new_files = None →
  launch w scan_proc = Returned (mkCompleted 0 out) →
  License.scancode_results o = Returned files →
  License.run o w commit_range s
  = mkRun ["Running License tests..."]
          (add_proc (add_proc s (diff_added commit_range)) scan_proc)
          (Returned
             (if forallb in_order files
              then mkCase "License" (Some "Guidelines") None None
              else mkCase "License" (Some "Guidelines") None
                     (Some (set_text (Failure "License/Copyright issues" "failure")
                                     (License.report_of files))))).
Proof.
  intros Hpath Hmk Hgit Hvalid Hnew Hcopy Hscan Hjson.
  rewrite (license_to_the_scan o w commit_range s new_files) by assumption.
  unfold License.scan_and_judge.
  erewrite bind_quiet
    by (rewrite license_scan, Hscan; cbn [returncode];
        rewrite bool_decide_eq_true_2 by reflexivity; reflexivity).
  cbn [negb]. rewrite Hjson.
  erewrite bind_quiet by reflexivity.
  unfold License.judge. cbv zeta.
  destruct (forallb in_order files) eqn:Hall.
  - rewrite bool_decide_eq_false_2; [reflexivity|].
    intros Hne. apply Hne. rewrite report_of_fold.
    apply (report_empty _ in_order); [apply file_lines_in_order|exact Hall].
  - rewrite bool_decide_eq_true_2; [reflexivity|].
    intros Hempty. rewrite report_of_fold in Hempty.
    apply (report_empty _ in_order) in Hempty; [congruence|apply file_lines_in_order].
Qed.

Lemma license_fails_exactly_on_a_file_out_of_order_witness :
  value_of (License.run (Ex.scan [Ex.copies; Ex.new_c])
              (Ex.scanning ("drivers/new.c" +:+ Py.NL)) "HEAD~1.." Ex.no_token)
  = Some (Ex.license_failed
            ("* drivers/new.c is not apache-2.0 licensed: gpl-2.0" +:+ Py.NL
             +:+ "* drivers/new.c has non-permissive license: gpl-2.0" +:+ Py.NL)).
Proof.
  rewrite (license_fails_exactly_on_a_file_out_of_order
             (Ex.scan [Ex.copies; Ex.new_c]) (Ex.scanning ("drivers/new.c" +:+ Py.NL))
             "HEAD~1.." Ex.no_token ("drivers/new.c" +:+ Py.NL) "" [Ex.copies; Ex.new_c]
             eq_refl eq_refl eq_refl eq_refl).
  - reflexivity.
  - discriminate.
  - reflexivity.
  - reflexivity.
  - reflexivity.
Defined.

(** A scan that went well but left no [scancode.json] to load is no error
    of the check: the exception of the load leaves [run]. *)
Theorem license_load_fault_leaves_the_check o w commit_range s new_files out e :
  path_exists w License.scancode = true →
  License.makedirs_fault o = None →
  launch w (diff_added commit_range) = Returned (mkCompleted 0 new_files) →
  Py.valid_utf8 new_files = true →
  new_files ≠ "" →
  License.copy_fault o new_files = None →
  launch w scan_proc = Returned (mkCompleted 0 out) →
  License.scancode_results o = Raised e →
  value (License.run o w commit_range s) = Raised e.
Proof.
  intros Hpath Hmk Hgit Hvalid Hnew Hcopy Hscan Hjson.
  rewrite (license_to_the_scan o w commit_range s new_files) by assumption.
  cbn [value]. unfold License.scan_and_judge.
  erewrite bind_quiet
    by (rewrite license_scan, Hscan; cbn [returncode];
        rewrite bool_decide_eq_true_2 by reflexivity; reflexivity).
  cbn [negb]. rewrite Hjson. reflexivity.
Qed.

Lemma license_load_fault_leaves_the_check_witness :
  value (License.run Ex.no_json (Ex.scanning ("drivers/new.c" +:+ Py.NL)) "HEAD~1.."
           Ex.no_token)
  = Raised (OSError "ENOENT").
Proof.
  apply (license_load_fault_leaves_the_check Ex.no_json
           (Ex.scanning ("drivers/new.c" +:+ Py.NL)) "HEAD~1.." Ex.no_token
           ("drivers/new.c" +:+ Py.NL) "" (OSError "ENOENT")
           eq_refl eq_refl eq_refl eq_refl);
    [discriminate|reflexivity|reflexivity|reflexivity].
Defined.

Lemma replace_scan_skip old new a : ∀ p,
  Py.replace_scan old new (a +:+ p) (String.length a) = Py.replace_scan old new p 0.
Proof.
  induction a as [|x a IH]; intros p.
  - rewrite str_nil_app. destruct p; reflexivity.
  - rewrite str_cons_app. cbn [String.length Py.replace_scan]. apply IH.
Qed.

Lemma replace_scan_match old new p :
  old ≠ "" →
  Py.replace_scan old new (old +:+ p) 0 = new +:+ Py.replace_scan old new p 0.
Proof.
  intros Hold. destruct old as [|x old]; [contradiction|].
  rewrite str_cons_app. cbn [Py.replace_scan].
  rewrite <- str_cons_app.
  rewrite (proj2 (prefix_split (String x old) (String x old +:+ p)))
    by (exists p; reflexivity).
  cbn [String.length].
  replace (S (String.length old) - 1)%nat with (String.length old) by lia.
  rewrite replace_scan_skip. reflexivity.
Qed.

Lemma replace_scan_none old new : ∀ p,
  ¬ occurs_in old p → Py.replace_scan old new p 0 = p.
Proof.
  induction p as [|a p IH]; intros Hno; [reflexivity|].
  cbn [Py.replace_scan].
  destruct (String.prefix old (String a p)) eqn:Hpre.
  - exfalso. apply Hno. apply prefix_split in Hpre as [later H].
    exists "", later. exact H.
  - rewrite IH; [reflexivity|]. intros (before & later & H). apply Hno.
    exists (String a before), later. rewrite str_cons_app, H. reflexivity.
Qed.

(** The report names a file by its path without the directory of the
    copies: every [scancode-files/] at the head of a path is dropped, and
    a path that holds none is left as it is.  So a source file without a
    license, copied from [p], is reported as [p]. *)
Theorem license_report_drops_the_copy_directory p f :
  ¬ occurs_in "scancode-files/" p →
  License.path f = "scancode-files/" +:+ p →
  License.type f ≠ "directory" →
  License.examined f = true →
  License.licenses f = [] →
  License.copyrights f ≠ [] →
  Py.replace "scancode-files/" "" ("scancode-files/" +:+ "scancode-files/" +:+ p) = p
  ∧ License.file_lines f = "* " +:+ p +:+ " missing license." +:+ Py.NL.
Proof.
  intros Hno Hpath Htype Hex Hlic Hcopy.
  assert (Hdrop : ∀ q, Py.replace "scancode-files/" "" ("scancode-files/" +:+ q)
                       = Py.replace "scancode-files/" "" q).
  { intros q. unfold Py.replace. rewrite bool_decide_eq_false_2 by discriminate.
    rewrite replace_scan_match by discriminate. apply str_nil_app. }
  assert (Hkeep : Py.replace "scancode-files/" "" p = p).
  { unfold Py.replace. rewrite bool_decide_eq_false_2 by discriminate.
    apply replace_scan_none. exact Hno. }
  split; [rewrite !Hdrop; exact Hkeep|].
  unfold License.file_lines. rewrite bool_decide_eq_false_2 by exact Htype.
  cbv zeta. rewrite Hex, Hpath, Hdrop, Hkeep, Hlic.
  rewrite bool_decide_eq_true_2 by reflexivity.
  rewrite bool_decide_eq_false_2 by exact Hcopy.
  rewrite !str_app_assoc, str_app_nil_r. reflexivity.
Qed.

Lemma license_report_drops_the_copy_directory_witness :
  License.file_lines Ex.bare_c = "* drivers/bare.c missing license." +:+ Py.NL.
Proof.
  refine (proj2 (license_report_drops_the_copy_directory "drivers/bare.c" Ex.bare_c
                   _ eq_refl _ eq_refl eq_refl _)).
  - intros Hocc. apply contains_occurs in Hocc. discriminate.
  - discriminate.
  - discriminate.
Defined.

(** *** The identity check *)

Lemma count_pieces_space s :
  (Py.count_pieces (Ascii.ascii_of_nat 32) s <? 2)%nat = false ↔ occurs_in " " s.
Proof.
  assert (Hpos : ∀ t, (1 <= Py.count_pieces (Ascii.ascii_of_nat 32) t)%nat).
  { induction t as [|a t IH]; cbn [Py.count_pieces]; [lia|].
    destruct (Ascii.eqb a _); lia. }
  rewrite Nat.ltb_ge. induction s as [|a s IH]; cbn [Py.count_pieces].
  - split; [lia|]. intros (before & later & H). destruct before; discriminate.
  - destruct (Ascii.eqb a (Ascii.ascii_of_nat 32)) eqn:Ha.
    + apply Ascii.eqb_eq in Ha. subst a. split; [|specialize (Hpos s); lia].
      intros _. exists "", s. reflexivity.
    + rewrite IH. apply Ascii.eqb_neq in Ha. split.
      * intros (before & later & H). exists (String a before), later.
        rewrite str_cons_app, H. reflexivity.
      * intros (before & later & H). destruct before as [|x before].
        -- rewrite str_nil_app, str_cons_app in H. inversion H. contradiction.
        -- rewrite str_cons_app in H. inversion H. exists before, later. reflexivity.
Qed.

Lemma identity_failure_cases c :
  let error1 := Identity.sha c +:+ ": author email (" +:+ Identity.author c
                +:+ ") needs to match one of the signed-off-by entries." in
  let error2 := Identity.sha c +:+ ": author email (" +:+ Identity.author c
                +:+ ") does not follow the syntax: First Last <email>." in
  let named := ∃ realname addr,
                 Identity.parsed_addr c = Some (realname, addr)
                 ∧ occurs_in " " realname in
  Identity.failure_of c
  = (if decide (Identity.author c ∈ Identity.signed c)
     then None else Some error1)
    ∧ named
  ∨ Identity.failure_of c
    = (if decide (Identity.author c ∈ Identity.signed c)
       then Some error2 else Some (error1 +:+ Py.NL +:+ error2))
    ∧ ¬ named.
Proof.
  cbv zeta.
  assert (Herr : ∀ x rest, truthy (Some (x +:+ ": author email (" +:+ rest)) = true).
  { intros x rest. unfold truthy. apply bool_decide_eq_true_2.
    intros H. apply str_app_empty in H as [_ H]. discriminate. }
  unfold Identity.failure_of. cbv zeta.
  destruct (Identity.parsed_addr c) as [[realname addr]|] eqn:Hp.
  - destruct (Py.count_pieces (Ascii.ascii_of_nat 32) realname <? 2)%nat eqn:Hn.
    + right. split.
      * destruct (decide (Identity.author c ∈ Identity.signed c)) as [Hin|Hout].
        -- rewrite bool_decide_eq_false_2 by tauto. reflexivity.
        -- rewrite bool_decide_eq_true_2 by exact Hout. rewrite Herr. reflexivity.
      * intros (r & a & Heq & Hocc). inversion Heq; subst.
        apply count_pieces_space in Hocc. congruence.
    + left. split.
      * destruct (decide (Identity.author c ∈ Identity.signed c)) as [Hin|Hout].
        -- rewrite bool_decide_eq_false_2 by tauto. reflexivity.
        -- rewrite bool_decide_eq_true_2 by exact Hout. reflexivity.
      * exists realname, addr. split; [reflexivity|]. apply count_pieces_space. exact Hn.
  - right. split.
    + destruct (decide (Identity.author c ∈ Identity.signed c)) as [Hin|Hout].
      * rewrite bool_decide_eq_false_2 by tauto. reflexivity.
      * rewrite bool_decide_eq_true_2 by exact Hout. rewrite Herr. reflexivity.
    + intros (r & a & Heq & _). discriminate.
Qed.

Lemma identity_failure_truthy c m :
  Identity.failure_of c = Some m → m ≠ "".
Proof.
  intros Hm Hempty. subst m.
  destruct (identity_failure_cases c) as [[H _]|[H _]]; rewrite Hm in H;
    destruct (decide (Identity.author c ∈ Identity.signed c)); try discriminate;
    inversion H as [Heq]; symmetry in Heq;
    repeat (apply str_app_empty in Heq as [_ Heq]); discriminate.
Qed.

(** A commit has no failure exactly when its author is among the
    signed-off-by entries and the name that [parseaddr] found in the author
    line holds a space.  A commit that fails on both counts gets both
    messages, the one on the sign-off first, a line feed between them. *)
Theorem identity_wants_a_signed_author_with_two_names c :
  (Identity.failure_of c = None
   ↔ Identity.author c ∈ Identity.signed c
     ∧ ∃ realname addr,
         Identity.parsed_addr c = Some (realname, addr) ∧ occurs_in " " realname)
  ∧ (Identity.author c ∉ Identity.signed c →
     (∀ realname addr, Identity.parsed_addr c = Some (realname, addr) →
                       ¬ occurs_in " " realname) →
     Identity.failure_of c
     = Some ((Identity.sha c +:+ ": author email (" +:+ Identity.author c
              +:+ ") needs to match one of the signed-off-by entries.")
             +:+ Py.NL
             +:+ (Identity.sha c +:+ ": author email (" +:+ Identity.author c
                  +:+ ") does not follow the syntax: First Last <email>."))).
Proof.
  pose proof (identity_failure_cases c) as Hcases. cbv zeta in Hcases. split.
  - destruct Hcases as [[H Hnamed]|[H Hnot]]; rewrite H;
      destruct (decide (Identity.author c ∈ Identity.signed c)) as [Hin|Hout].
    + tauto.
    + split; [discriminate|tauto].
    + split; [discriminate|tauto].
    + split; [discriminate|tauto].
  - intros Hout Hnone.
    destruct Hcases as [[H Hnamed]|[H Hnot]].
    + destruct Hnamed as (realname & addr & Hp & Hocc).
      exfalso. exact (Hnone realname addr Hp Hocc).
    + rewrite H. destruct (decide (Identity.author c ∈ Identity.signed c)); tauto.
Qed.

Lemma identity_wants_a_signed_author_with_two_names_witness :
  Identity.failure_of Ex.unsigned
  = Some ("1f3a9c0b: author email (jo@example.com) needs to match one of the signed-off-by entries."
          +:+ Py.NL
          +:+ "1f3a9c0b: author email (jo@example.com) does not follow the syntax: First Last <email>.").
Proof.
  apply (proj2 (identity_wants_a_signed_author_with_two_names Ex.unsigned)).
  - apply not_elem_of_nil.
  - intros realname addr Heq Hocc. inversion Heq; subst.
    apply contains_occurs in Hocc. discriminate.
Defined.

Lemma record_run case c s :
  Identity.record case c s
  = mkRun [] s (Returned (match Identity.failure_of c with
                          | Some m => identity_failed case m
                          | None => case
                          end)).
Proof.
  unfold Identity.record. cbv zeta.
  destruct (Identity.failure_of c) as [m|] eqn:Hm; [|reflexivity].
  unfold truthy. rewrite bool_decide_eq_true_2 by (eapply identity_failure_truthy, Hm).
  reflexivity.
Qed.

(** The loop of the identity check keeps one failure, that of the last
    commit that has one: the failures of the commits before it are lost.
    Without a failing commit the case is left as it was.  The loop prints
    nothing and changes nothing. *)
Theorem identity_keeps_the_failure_of_the_last_commit case commits s :
  Identity.record_all case commits s
  = mkRun [] s
          (Returned (match last (omap Identity.failure_of commits) with
                     | Some m => identity_failed case m
                     | None => case
                     end)).
Proof.
  unfold Identity.record_all. revert case.
  induction commits as [|c commits IH]; intros case; [reflexivity|].
  cbn [for_each]. erewrite bind_quiet by apply record_run. rewrite IH.
  cbn [omap list_omap]. destruct (Identity.failure_of c) as [m0|]; [|reflexivity].
  rewrite last_cons. destruct (last (omap Identity.failure_of commits)); reflexivity.
Qed.
